(** * turtlejs: the command log, the boundary tracer and playback

    A shallow embedding of [src/turtle.js].  The [Turtle] class keeps one
    mutable current state and a log of snapshots; every command mutates
    the current state and conditionally pushes a copy to the log, [_moveTo]
    splits a move at the canvas edges, and [done] replays the log.

    JavaScript numbers are kept behind the interface [JSNum]: the model of
    the class is written once against it and is instantiated twice below,
    by IEEE-754 binary64 floats ([FloatModel]) and by exact real arithmetic
    ([RealModel]). *)

From Stdlib Require Import ZArith List String Bool Lia.
From Stdlib Require Import Floats.
From Stdlib Require Import Reals Lra.
Import ListNotations.
Local Open Scope string_scope.
Local Open Scope list_scope.

Set Implicit Arguments.

(** ** JavaScript numbers *)

Declare Scope js_scope.
Delimit Scope js_scope with js.

Module JS.

(** The operations of the Number type and of [Math] that the source uses.
    [toFixed4 v] stands for [parseFloat(v.toFixed(4))]. *)
Class JSNum (num : Type) : Type := {
  NaN : num;
  of_Z : Z -> num;
  neg : num -> num;
  add : num -> num -> num;
  sub : num -> num -> num;
  mul : num -> num -> num;
  div : num -> num -> num;
  lt : num -> num -> bool;
  seq : num -> num -> bool;
  Math_PI : num;
  Math_abs : num -> num;
  Math_sin : num -> num;
  Math_cos : num -> num;
  Math_atan2 : num -> num -> num;
  Math_hypot : num -> num -> num;
  toFixed4 : num -> num
}.

End JS.

Import JS.

Notation "a + b" := (add a b) : js_scope.
Notation "a - b" := (sub a b) : js_scope.
Notation "a * b" := (mul a b) : js_scope.
Notation "a / b" := (div a b) : js_scope.
Notation "- a" := (neg a) : js_scope.
Notation "a <? b" := (lt a b) : js_scope.
Notation "a >? b" := (lt b a) : js_scope.
Notation "a === b" := (seq a b) (at level 70, no associativity) : js_scope.
Notation "a !== b" := (negb (seq a b)) (at level 70, no associativity) : js_scope.

Section Values.
Context (num : Type) {N : JSNum num}.
Local Open Scope js_scope.

(** An integer literal of the source. *)
Definition lit (z : Z) : num := of_Z z.

(** [ToBoolean] of a number: false for [+0], [-0] and [NaN]. *)
Definition num_truthy (n : num) : bool := (n !== lit 0) && (n === n).

(** The values that can end up in the [speed] field: a number, or what a
    property lookup on a plain object returns for a name the object does
    not define itself. *)
Inductive jsval : Type :=
  | VUndefined
  | VNum (n : num)
  | VBuiltin (name : string).

Definition typeof_undefined (v : jsval) : bool :=
  match v with VUndefined => true | _ => false end.

Definition ToNumber (v : jsval) : num :=
  match v with VNum n => n | _ => NaN end.

Definition ToBoolean (v : jsval) : bool :=
  match v with
  | VUndefined => false
  | VNum n => num_truthy n
  | VBuiltin _ => true
  end.

(** [a === b] on values. *)
Definition val_seq (a b : jsval) : bool :=
  match a, b with
  | VUndefined, VUndefined => true
  | VNum m, VNum n => m === n
  | VBuiltin f, VBuiltin g => String.eqb f g
  | _, _ => false
  end.

(** function degToRad(deg) *)
Definition degToRad (deg : num) : num := deg / lit 180 * Math_PI.

(** function radToDeg(rad) *)
Definition radToDeg (rad : num) : num := rad * lit 180 / Math_PI.

End Values.

Arguments VUndefined {num}.
Arguments VBuiltin {num} name.

(** The facts about comparisons that the tracer's loop relies on.  They
    hold for the doubles and for the reals (see [FloatProps.float_laws]
    and [RealProps.real_laws]). *)
Class JSNumLaws {num : Type} (N : JSNum num) : Prop := {
  zero_not_gt_zero : (lit 0 >? lit 0)%js = false;
  seq_not_gt : forall a b : num, (a === b)%js = true -> (a >? b)%js = false;
  zero_term_not_gt : forall x s r m : num,
    (s === lit 0)%js = true -> (x >? m)%js = false ->
    (x + s * r >? m)%js = false;
  zero_term_not_lt : forall x s r m : num,
    (s === lit 0)%js = true -> (x <? m)%js = false ->
    (x + s * r <? m)%js = false
}.

(** ** The state object

    [this._state] is a flat object with fourteen own properties; the log
    holds copies of it. *)

Module State.
Section State.
Context (num : Type) {N : JSNum num}.

Record t : Type := mk {
  x : num;
  y : num;
  angle : num;
  penDown : bool;
  width : num;
  visible : bool;
  redraw : bool;
  wrap : bool;
  color : string;
  bgcolor : string;
  speed : jsval num;
  clear : bool;
  animateMovement : bool;
  instant : bool
}.

Definition set_x (v : num) (s : t) : t :=
  mk v (y s) (angle s) (penDown s) (width s) (visible s) (redraw s) (wrap s)
     (color s) (bgcolor s) (speed s) (clear s) (animateMovement s) (instant s).
Definition set_y (v : num) (s : t) : t :=
  mk (x s) v (angle s) (penDown s) (width s) (visible s) (redraw s) (wrap s)
     (color s) (bgcolor s) (speed s) (clear s) (animateMovement s) (instant s).
Definition set_angle (v : num) (s : t) : t :=
  mk (x s) (y s) v (penDown s) (width s) (visible s) (redraw s) (wrap s)
     (color s) (bgcolor s) (speed s) (clear s) (animateMovement s) (instant s).
Definition set_penDown (v : bool) (s : t) : t :=
  mk (x s) (y s) (angle s) v (width s) (visible s) (redraw s) (wrap s)
     (color s) (bgcolor s) (speed s) (clear s) (animateMovement s) (instant s).
Definition set_width (v : num) (s : t) : t :=
  mk (x s) (y s) (angle s) (penDown s) v (visible s) (redraw s) (wrap s)
     (color s) (bgcolor s) (speed s) (clear s) (animateMovement s) (instant s).
Definition set_visible (v : bool) (s : t) : t :=
  mk (x s) (y s) (angle s) (penDown s) (width s) v (redraw s) (wrap s)
     (color s) (bgcolor s) (speed s) (clear s) (animateMovement s) (instant s).
Definition set_redraw (v : bool) (s : t) : t :=
  mk (x s) (y s) (angle s) (penDown s) (width s) (visible s) v (wrap s)
     (color s) (bgcolor s) (speed s) (clear s) (animateMovement s) (instant s).
Definition set_wrap (v : bool) (s : t) : t :=
  mk (x s) (y s) (angle s) (penDown s) (width s) (visible s) (redraw s) v
     (color s) (bgcolor s) (speed s) (clear s) (animateMovement s) (instant s).
Definition set_color (v : string) (s : t) : t :=
  mk (x s) (y s) (angle s) (penDown s) (width s) (visible s) (redraw s) (wrap s)
     v (bgcolor s) (speed s) (clear s) (animateMovement s) (instant s).
Definition set_bgcolor (v : string) (s : t) : t :=
  mk (x s) (y s) (angle s) (penDown s) (width s) (visible s) (redraw s) (wrap s)
     (color s) v (speed s) (clear s) (animateMovement s) (instant s).
Definition set_speed (v : jsval num) (s : t) : t :=
  mk (x s) (y s) (angle s) (penDown s) (width s) (visible s) (redraw s) (wrap s)
     (color s) (bgcolor s) v (clear s) (animateMovement s) (instant s).
Definition set_clear (v : bool) (s : t) : t :=
  mk (x s) (y s) (angle s) (penDown s) (width s) (visible s) (redraw s) (wrap s)
     (color s) (bgcolor s) (speed s) v (animateMovement s) (instant s).
Definition set_animateMovement (v : bool) (s : t) : t :=
  mk (x s) (y s) (angle s) (penDown s) (width s) (visible s) (redraw s) (wrap s)
     (color s) (bgcolor s) (speed s) (clear s) v (instant s).
Definition set_instant (v : bool) (s : t) : t :=
  mk (x s) (y s) (angle s) (penDown s) (width s) (visible s) (redraw s) (wrap s)
     (color s) (bgcolor s) (speed s) (clear s) (animateMovement s) v.

(** The loop [for (let key in a) if (a[key] !== b[key]) return true] of
    [isDifferent], on two objects that both carry the fourteen keys. *)
Definition differs (a b : t) : bool :=
  let n (p q : num) := (p !== q)%js in
  let b' (p q : bool) := negb (Bool.eqb p q) in
  let s (p q : string) := negb (String.eqb p q) in
  n (x a) (x b) || n (y a) (y b) || n (angle a) (angle b)
  || b' (penDown a) (penDown b) || n (width a) (width b)
  || b' (visible a) (visible b) || b' (redraw a) (redraw b)
  || b' (wrap a) (wrap b) || s (color a) (color b)
  || s (bgcolor a) (bgcolor b) || negb (val_seq (speed a) (speed b))
  || b' (clear a) (clear b)
  || b' (animateMovement a) (animateMovement b)
  || b' (instant a) (instant b).

End State.
End State.

(** function isDifferent(a, b): either side may be [null] or [undefined]. *)
Definition isDifferent {num : Type} {N : JSNum num}
  (a b : option (State.t num)) : bool :=
  match a, b with
  | Some _, None | None, Some _ => true
  | None, None => false
  | Some a, Some b => State.differs a b
  end.

(** ** The rendering surface

    The canvas contexts are external; the model records the calls made on
    them, in order.  [Draw st] is [this._draw(st)], [Path] the
    [beginPath/moveTo/lineTo] of one animation frame together with whether
    [stroke()] was called, [Sleep ms] one [await setTimeoutAsync(_, ms)]. *)

Section Surface.
Context (num : Type) {N : JSNum num}.

Inductive render_op : Type :=
  | ClearImage
  | SetLineWidth (w : num)
  | SetStrokeStyle (c : string)
  | SetGlobalAlpha (a : num)
  | SetBackground (c : string)
  | Draw (st : State.t num)
  | Path (x0 y0 x1 y1 : num) (stroked : bool)
  | Sleep (ms : num).

End Surface.

Arguments ClearImage {num}.
Arguments SetStrokeStyle {num} c.
Arguments SetBackground {num} c.

(** function parseColor(...args), the arguments given by their string
    forms ([join] converts them): three arguments make an [rgb(...)]
    spec, four an [rgba(...)] spec, otherwise the first one is returned. *)
Definition parseColor (first : string) (rest : list string) : string :=
  match List.length (first :: rest) with
  | 3 => ("rgb(" ++ String.concat "," (first :: rest) ++ ")")%string
  | 4 => ("rgba(" ++ String.concat "," (first :: rest) ++ ")")%string
  | _ => first
  end.

(** ** The named speeds

    [SPEEDS] is a plain object literal, so [SPEEDS[name]] finds its five
    own properties and, for any other name, what [Object.prototype]
    provides. *)

Definition SPEEDS : list (string * Z) :=
  [("fastest", 0%Z); ("fast", 10%Z); ("normal", 6%Z); ("slow", 3%Z);
   ("slowest", 1%Z)].

Definition Object_prototype : list string :=
  ["constructor"; "hasOwnProperty"; "isPrototypeOf"; "propertyIsEnumerable";
   "toLocaleString"; "toString"; "valueOf"; "__proto__";
   "__defineGetter__"; "__defineSetter__";
   "__lookupGetter__"; "__lookupSetter__"].

Fixpoint own_property (name : string) (o : list (string * Z)) : option Z :=
  match o with
  | [] => None
  | (k, v) :: o' => if String.eqb name k then Some v else own_property name o'
  end.

Definition inherited (name : string) : bool :=
  existsb (String.eqb name) Object_prototype.

(** [SPEEDS[name]] *)
Definition SPEEDS_get {num : Type} {N : JSNum num} (name : string)
  : jsval num :=
  match own_property name SPEEDS with
  | Some z => VNum (lit z)
  | None => if inherited name then VBuiltin name else VUndefined
  end.

(** The argument of [speed]: a string or a number. *)
Inductive speed_arg (num : Type) : Type :=
  | SpeedName (name : string)
  | SpeedCode (code : num).

Arguments SpeedName {num} name.
Arguments SpeedCode {num} code.

(** ** The Turtle class *)

Module Turtle.
Section Turtle.
Context (num : Type) {N : JSNum num}.
Local Open Scope js_scope.

(** The fields of a [Turtle] that the methods below read or write: the
    log [_states], the current state [_state], the size of the hidden
    image canvas (fixed by the constructor) and the calls made so far on
    the rendering surface. *)
Record session : Type := mkSession {
  _states : list (State.t num);
  _state : State.t num;
  canvas_width : BinNums.N;
  canvas_height : BinNums.N;
  rendered : list (render_op num)
}.

Definition with_states (l : list (State.t num)) (t : session) : session :=
  mkSession l (_state t) (canvas_width t) (canvas_height t) (rendered t).
Definition with_state (s : State.t num) (t : session) : session :=
  mkSession (_states t) s (canvas_width t) (canvas_height t) (rendered t).
Definition render (ops : list (render_op num)) (t : session) : session :=
  mkSession (_states t) (_state t) (canvas_width t) (canvas_height t)
            (rendered t ++ ops).

(** [this._state.f = v] for a field setter [f]. *)
Definition assign (f : State.t num -> State.t num) (t : session) : session :=
  with_state (f (_state t)) t.

(** [a[a.length - 1]]: the last element, [undefined] on an empty array. *)
Fixpoint last_of (a : list (State.t num)) : option (State.t num) :=
  match a with
  | [] => None
  | [e] => Some e
  | _ :: a' => last_of a'
  end.

(** _stateHasChanged() *)
Definition _stateHasChanged (t : session) : bool :=
  match last_of (_states t) with
  | None => true
  | Some lastState => isDifferent (Some lastState) (Some (_state t))
  end.

(** _pushState() *)
Definition _pushState (t : session) : session :=
  if _stateHasChanged t then with_states (_states t ++ [_state t]) t else t.

(** The object literal of [_init]. *)
Definition default_state : State.t num :=
  State.mk (lit 0) (lit 0) (lit 0) true (lit 1) true true true
           "black" "" (SPEEDS_get "normal") false true false.

(** _init() *)
Definition _init (t : session) : session :=
  let t := with_states [] t in
  let t := with_state default_state t in
  let t := _pushState t in
  render [SetLineWidth (State.width (_state t)); SetStrokeStyle "black";
          SetGlobalAlpha (lit 1)] t.

(** constructor(canvas), for a canvas of the given size. *)
Definition constructor (w h : BinNums.N) : session :=
  _init (mkSession [] default_state w h []).

(** clear() *)
Definition clear (t : session) : session :=
  let t := assign (State.set_clear true) t in
  let t := _pushState t in
  assign (State.set_clear false) t.

(** reset() *)
Definition reset (t : session) : session := clear (_init t).

(** speed(speed) *)
Definition speed (a : speed_arg num) (t : session) : session :=
  let v :=
    match a with
    | SpeedName name =>
        let v := SPEEDS_get name in
        if typeof_undefined v then SPEEDS_get "normal" else v
    | SpeedCode n => VNum n
    end in
  _pushState (assign (State.set_speed v) t).

(** _distanceTo(x, y) *)
Definition _distanceTo (x y : num) (t : session) : num :=
  Math_hypot (x - State.x (_state t)) (y - State.y (_state t)).

(** _setPos(x, y) *)
Definition _setPos (x y : num) (t : session) : session :=
  let t := assign (State.set_x (toFixed4 x)) t in
  let t := assign (State.set_y (toFixed4 y)) t in
  _pushState t.

(** tp(x, y) *)
Definition tp (x y : num) (t : session) : session :=
  let t := assign (State.set_animateMovement false) t in
  let t := _setPos x y t in
  assign (State.set_animateMovement true) t.

(** *** _moveTo: the boundary tracer *)

Definition maxX (t : session) : num := of_Z (Z.of_N (canvas_width t)) / lit 2.
Definition minX (t : session) : num := - of_Z (Z.of_N (canvas_width t)) / lit 2.
Definition maxY (t : session) : num := of_Z (Z.of_N (canvas_height t)) / lit 2.
Definition minY (t : session) : num := - of_Z (Z.of_N (canvas_height t)) / lit 2.

(** The local variables of the loop, with [this]. *)
Record tracer : Type := mkTracer {
  cur_x : num;
  cur_y : num;
  remainingDistance : num;
  self : session
}.

(** The closure [xWrap(cutBound, otherBound)]. *)
Definition xWrap (sinAngle cosAngle cutBound otherBound : num) (k : tracer)
  : tracer :=
  let distanceToEdge := Math_abs ((cutBound - cur_x k) / sinAngle) in
  let edgeY := cosAngle * distanceToEdge + cur_y k in
  let t := _setPos cutBound edgeY (self k) in
  let remaining := remainingDistance k - distanceToEdge in
  let x := otherBound in
  let y := edgeY in
  mkTracer x y remaining (tp x y t).

(** The closure [yWrap(cutBound, otherBound)]. *)
Definition yWrap (sinAngle cosAngle cutBound otherBound : num) (k : tracer)
  : tracer :=
  let distanceToEdge := Math_abs ((cutBound - cur_y k) / cosAngle) in
  let edgeX := sinAngle * distanceToEdge + cur_x k in
  let t := _setPos edgeX cutBound (self k) in
  let remaining := remainingDistance k - distanceToEdge in
  let x := edgeX in
  let y := otherBound in
  mkTracer x y remaining (tp x y t).

(** The closure [noWrap()]. *)
Definition noWrap (newX newY : num) (k : tracer) : tracer :=
  mkTracer (cur_x k) (cur_y k) (lit 0) (_setPos newX newY (self k)).

(** Which arm of the [if]/[else if] chain one iteration takes. *)
Inductive crossing : Type :=
  | CrossMaxX | CrossMinX | CrossMaxY | CrossMinY | NoCross.

Definition crossing_of (newX newY : num) (t : session) : crossing :=
  if State.wrap (_state t) then
    if newX >? maxX t then CrossMaxX
    else if newX <? minX t then CrossMinX
    else if newY >? maxY t then CrossMaxY
    else if newY <? minY t then CrossMinY
    else NoCross
  else NoCross.

Definition newX_of (angle : num) (k : tracer) : num :=
  cur_x k + Math_sin angle * remainingDistance k.
Definition newY_of (angle : num) (k : tracer) : num :=
  cur_y k + Math_cos angle * remainingDistance k.

(** The arm taken by the iteration that starts in [k]. *)
Definition crossing_at (angle : num) (k : tracer) : crossing :=
  crossing_of (newX_of angle k) (newY_of angle k) (self k).

(** One execution of the loop body. *)
Definition trace_step (angle : num) (k : tracer) : tracer :=
  let cosAngle := Math_cos angle in
  let sinAngle := Math_sin angle in
  let newX := cur_x k + sinAngle * remainingDistance k in
  let newY := cur_y k + cosAngle * remainingDistance k in
  let t := self k in
  match crossing_of newX newY t with
  | CrossMaxX => xWrap sinAngle cosAngle (maxX t) (minX t) k
  | CrossMinX => xWrap sinAngle cosAngle (minX t) (maxX t) k
  | CrossMaxY => yWrap sinAngle cosAngle (maxY t) (minY t) k
  | CrossMinY => yWrap sinAngle cosAngle (minY t) (maxY t) k
  | NoCross => noWrap newX newY k
  end.

(** [while (remainingDistance > 0) { ... }]; [None] when the loop is still
    running after [fuel] iterations. *)
Fixpoint trace_loop (fuel : nat) (angle : num) (k : tracer) : option session :=
  if remainingDistance k >? lit 0 then
    match fuel with
    | O => None
    | S fuel' => trace_loop fuel' angle (trace_step angle k)
    end
  else Some (self k).

(** _moveTo(targetX, targetY) *)
Definition _moveTo (fuel : nat) (targetX targetY : num) (t : session)
  : option session :=
  let x := State.x (_state t) in
  let y := State.y (_state t) in
  let remainingDistance := _distanceTo targetX targetY t in
  let angle := Math_atan2 (targetX - State.x (_state t))
                          (targetY - State.y (_state t)) in
  trace_loop fuel angle (mkTracer x y remainingDistance t).

(** _distanceTarget(distance) *)
Definition _distanceTarget (distance : num) (t : session) : num * num :=
  let sinAngle := Math_sin (degToRad (State.angle (_state t))) in
  let cosAngle := Math_cos (degToRad (State.angle (_state t))) in
  let targetX := State.x (_state t) + sinAngle * distance in
  let targetY := State.y (_state t) + cosAngle * distance in
  (targetX, targetY).

(** forward(distance) *)
Definition forward (fuel : nat) (distance : num) (t : session) : option session :=
  let target := _distanceTarget distance t in
  _moveTo fuel (fst target) (snd target) t.

(** backward(distance) *)
Definition backward (fuel : nat) (distance : num) (t : session) : option session :=
  let target := _distanceTarget (distance * - lit 1) t in
  _moveTo fuel (fst target) (snd target) t.

(** wrap(bool) *)
Definition wrap (b : bool) (t : session) : session :=
  _pushState (assign (State.set_wrap b) t).

(** hideTurtle() *)
Definition hideTurtle (t : session) : session :=
  _pushState (assign (State.set_visible false) t).

(** showTurtle() *)
Definition showTurtle (t : session) : session :=
  _pushState (assign (State.set_visible true) t).

(** redrawOnMove(bool) *)
Definition redrawOnMove (b : bool) (t : session) : session :=
  _pushState (assign (State.set_redraw b) t).

(** penup() *)
Definition penup (t : session) : session :=
  _pushState (assign (State.set_penDown false) t).

(** pendown() *)
Definition pendown (t : session) : session :=
  _pushState (assign (State.set_penDown true) t).

(** right(angle) *)
Definition right (angle : num) (t : session) : session :=
  _pushState (assign (fun s => State.set_angle (State.angle s + angle) s) t).

(** left(angle) *)
Definition left (angle : num) (t : session) : session :=
  _pushState (assign (fun s => State.set_angle (State.angle s - angle) s) t).

(** goto(x, y) *)
Definition goto (fuel : nat) (x y : num) (t : session) : option session :=
  _moveTo fuel x y t.

(** setheading(angle) *)
Definition setheading (angle : num) (t : session) : session :=
  _pushState (assign (State.set_angle angle) t).

(** setangle(angle) *)
Definition setangle (angle : num) (t : session) : session :=
  setheading angle t.

(** home() *)
Definition home (t : session) : session :=
  let t := assign (State.set_instant true) t in
  let t := setheading (lit 0) t in
  let t := tp (lit 0) (lit 0) t in
  assign (State.set_instant false) t.

(** width(w) *)
Definition width (w : num) (t : session) : session :=
  _pushState (assign (State.set_width w) t).

(** color(color) *)
Definition color (first : string) (rest : list string) (t : session) : session :=
  _pushState (assign (State.set_color (parseColor first rest)) t).

(** bgcolor(color) *)
Definition bgcolor (first : string) (rest : list string) (t : session) : session :=
  _pushState (assign (State.set_bgcolor (parseColor first rest)) t).

(** *** done: playback *)

Definition fps : num := lit 60.
Definition stepDelay : num := lit 1000 / fps.

(** [state.speed ? state.speed * state.speed : 500] *)
Definition animationDistance (state : State.t num) : num :=
  if ToBoolean (State.speed state)
  then ToNumber (State.speed state) * ToNumber (State.speed state)
  else lit 500.

(** The delay of one animation frame:
    [state.speed === 0 ? 0 : (1000 / fps)]. *)
Definition frameDelay (state : State.t num) : num :=
  if val_seq (State.speed state) (VNum (lit 0)) then lit 0 else lit 1000 / fps.

(** The local variables of the animation loop with the surface calls made
    so far and [lastDrawnState]. *)
Record animation : Type := mkAnimation {
  anim_x : num;
  anim_y : num;
  anim_remaining : num;
  anim_ops : list (render_op num);
  anim_last : option (State.t num)
}.

(** One frame of the animation from [state] towards [nextState]. *)
Definition frame (state nextState : State.t num) (a : animation) : animation :=
  let x := anim_x a in
  let y := anim_y a in
  let angle := Math_atan2 (State.x nextState - State.x state)
                          (State.y nextState - State.y state) in
  let newX := x + Math_sin angle * animationDistance state in
  let newY := y + Math_cos angle * animationDistance state in
  let distanceToStop := Math_hypot (x - State.x nextState) (y - State.y nextState) in
  let stop := distanceToStop <? animationDistance state in
  let newX := if stop then State.x nextState else newX in
  let newY := if stop then State.y nextState else newY in
  let tempState := State.set_angle (State.angle state)
                     (State.set_y newY (State.set_x newX state)) in
  let ops := [Sleep (frameDelay state); Path x y newX newY (State.penDown state)]
             ++ (if State.redraw tempState then [Draw tempState] else []) in
  mkAnimation newX newY (anim_remaining a - animationDistance state)
              (anim_ops a ++ ops) (Some tempState).

(** [while (remainingDistance > 0) { ... }] of the animation; [None] when
    it is still running after [fuel] frames. *)
Fixpoint animate (fuel : nat) (state nextState : State.t num) (a : animation)
  : option animation :=
  if anim_remaining a >? lit 0 then
    match fuel with
    | O => None
    | S fuel' => animate fuel' state nextState (frame state nextState a)
    end
  else Some a.

(** The body of [for (let [i, state] of this._states.entries())] up to the
    animation: the style changes and the redraw of a changed state.  No
    state has a [reset] property, so that [state.clear || state.reset] is
    [state.clear || false]. *)
Definition show (state : State.t num) (lastDrawnState : option (State.t num))
  : list (render_op num) * option (State.t num) :=
  let ops := (if State.clear state || false then [ClearImage] else [])
             ++ [SetLineWidth (State.width state);
                 SetStrokeStyle (State.color state);
                 SetBackground (State.bgcolor state)] in
  if isDifferent lastDrawnState (Some state) then
    (ops ++ (if State.redraw state then [Draw state] else [])
         ++ (if negb (State.instant state) && (ToNumber (State.speed state) >? lit 0)
             then [Sleep stepDelay] else []),
     Some state)
  else (ops, lastDrawnState).

(** The animation towards [nextState], entered when
    [nextState && nextState.animateMovement &&
     (nextState.x != state.x || nextState.y != state.y)]. *)
Definition segment (fuel : nat) (state : State.t num)
  (nextState : option (State.t num))
  (ops : list (render_op num)) (lastDrawnState : option (State.t num))
  : option (list (render_op num) * option (State.t num)) :=
  match nextState with
  | None => Some (ops, lastDrawnState)
  | Some n =>
      if State.animateMovement n
         && ((State.x n !== State.x state) || (State.y n !== State.y state))
      then
        let remainingDistance :=
          Math_hypot (State.x state - State.x n) (State.y state - State.y n) in
        option_map (fun a => (anim_ops a, anim_last a))
          (animate fuel state n
             (mkAnimation (State.x state) (State.y state) remainingDistance
                          ops lastDrawnState))
      else Some (ops, lastDrawnState)
  end.

(** The iterations of the [for] loop over the entries that are left; each
    animation may run for [fuel] frames. *)
Fixpoint play (fuel : nat) (entries : list (State.t num))
  (lastDrawnState : option (State.t num)) : option (list (render_op num)) :=
  match entries with
  | [] => Some []
  | state :: rest =>
      let nextState := hd_error rest in
      let (ops, lastDrawnState) := show state lastDrawnState in
      match segment fuel state nextState ops lastDrawnState with
      | None => None
      | Some (ops, lastDrawnState) =>
          option_map (app ops) (play fuel rest lastDrawnState)
      end
  end.

(** done(): replay the log, then [this._states = []]. *)
Definition done (fuel : nat) (t : session) : option session :=
  match play fuel (_states t) None with
  | None => None
  | Some ops => Some (with_states [] (render ops t))
  end.

(** position() *)
Definition position (t : session) : num * num :=
  (State.x (_state t), State.y (_state t)).

(** heading() *)
Definition heading (t : session) : num := State.angle (_state t).

(** *** Client programs *)

(** The commands a client can issue.  [random] and [repeat] do not touch
    the session themselves and are left to the client. *)
Inductive command : Type :=
  | Clear
  | Reset
  | Speed (a : speed_arg num)
  | Forward (distance : num)
  | Backward (distance : num)
  | Wrap (b : bool)
  | HideTurtle
  | ShowTurtle
  | RedrawOnMove (b : bool)
  | Penup
  | Pendown
  | Right (angle : num)
  | Left (angle : num)
  | Goto (x y : num)
  | Home
  | Tp (x y : num)
  | Setheading (angle : num)
  | Setangle (angle : num)
  | Width (w : num)
  | Color (first : string) (rest : list string)
  | Bgcolor (first : string) (rest : list string)
  | Done.

Definition exec (fuel : nat) (c : command) (t : session) : option session :=
  match c with
  | Clear => Some (clear t)
  | Reset => Some (reset t)
  | Speed a => Some (speed a t)
  | Forward d => forward fuel d t
  | Backward d => backward fuel d t
  | Wrap b => Some (wrap b t)
  | HideTurtle => Some (hideTurtle t)
  | ShowTurtle => Some (showTurtle t)
  | RedrawOnMove b => Some (redrawOnMove b t)
  | Penup => Some (penup t)
  | Pendown => Some (pendown t)
  | Right a => Some (right a t)
  | Left a => Some (left a t)
  | Goto x y => goto fuel x y t
  | Home => Some (home t)
  | Tp x y => Some (tp x y t)
  | Setheading a => Some (setheading a t)
  | Setangle a => Some (setangle a t)
  | Width w => Some (width w t)
  | Color f r => Some (color f r t)
  | Bgcolor f r => Some (bgcolor f r t)
  | Done => done fuel t
  end.

Fixpoint run (fuel : nat) (p : list command) (t : session) : option session :=
  match p with
  | [] => Some t
  | c :: p' =>
      match exec fuel c t with
      | None => None
      | Some t' => run fuel p' t'
      end
  end.

(** The sessions a client can be in: a fresh turtle on a canvas, and
    whatever a command that returns leaves behind. *)
Inductive reachable : session -> Prop :=
  | reach_new : forall w h, reachable (constructor w h)
  | reach_exec : forall fuel c t t',
      reachable t -> exec fuel c t = Some t' -> reachable t'.

End Turtle.

Arguments default_state {num N}.
Arguments fps {num N}.
Arguments stepDelay {num N}.
Arguments Clear {num}.
Arguments Reset {num}.
Arguments Wrap {num} b.
Arguments HideTurtle {num}.
Arguments ShowTurtle {num}.
Arguments RedrawOnMove {num} b.
Arguments Penup {num}.
Arguments Pendown {num}.
Arguments Home {num}.
Arguments Color {num} first rest.
Arguments Bgcolor {num} first rest.
Arguments Done {num}.

End Turtle.

(** ** Numbers as IEEE-754 binary64

    The arithmetic of JavaScript numbers, by the primitive floats of the
    kernel.  [Math.sin], [Math.cos], [Math.atan2] and [Math.hypot] are
    implementation-approximated in ECMAScript; the functions below give
    the results the standard fixes exactly and an approximation
    elsewhere, so that sessions can be run. *)

Module FloatModel.

Local Open Scope float_scope.

(** Conversion of an integer, rounded to nearest (by the primitive
    conversion below [2^63]). *)
Definition float_of_Z (z : Z) : float :=
  if (Z.abs z <? 2 ^ 63)%Z then
    let v := of_uint63 (Uint63.of_Z (Z.abs z)) in
    if (z <? 0)%Z then - v else v
  else SF2Prim (binary_normalize prec emax z 0 false).

Definition sign_bit (v : float) : bool :=
  match Prim2SF v with
  | S754_zero s | S754_infinity s | S754_finite s _ _ => s
  | S754_nan => false
  end.

Definition is_finite (v : float) : bool :=
  match Prim2SF v with
  | S754_zero _ | S754_finite _ _ _ => true
  | _ => false
  end.

(** The integer part (rounded down) of twice a finite value, plus one,
    halved: the nearest integer, ties upwards. *)
Definition nearest_Z (v : float) : Z :=
  match Prim2SF v with
  | S754_finite s m e =>
      let n := if s then Z.neg m else Z.pos m in
      if (0 <=? e)%Z then (n * 2 ^ e)%Z
      else ((2 * n + 2 ^ (- e)) / 2 ^ (- e + 1))%Z
  | _ => 0%Z
  end.

(** *** parseFloat(v.toFixed(4))

    [toFixed] picks the integer [n] for which [n / 10^4] is nearest to the
    exact value of [v] (the larger [n] on a tie, on the absolute value) and
    prints it; [parseFloat] reads the decimal back to the nearest double.
    From [2^39] on the doubles are more than [10^-4] apart and the string
    reads back as [v]. *)
Definition toFixed4 (v : float) : float :=
  match Prim2SF v with
  | S754_nan => nan
  | S754_infinity _ => v
  | S754_zero _ => 0
  | S754_finite s m e =>
      if abs v <? 0x1p+39 then
        let n := if (0 <=? e)%Z then (Z.pos m * 2 ^ e * 10000)%Z
                 else ((2 * Z.pos m * 10000 + 2 ^ (- e)) / 2 ^ (- e + 1))%Z in
        let r := float_of_Z n / 10000 in
        if s then - r else r
      else v
  end.

(** *** Math *)

Definition Math_PI : float := 0x1.921fb54442d18p+1.

(** [Math.hypot(a, b)]: infinite if an argument is, [+0] on zeros, and
    otherwise the larger magnitude scaled by [sqrt(1 + q^2)]. *)
Definition Math_hypot (a b : float) : float :=
  let a := abs a in
  let b := abs b in
  if (a =? infinity) || (b =? infinity) then infinity
  else
    let hi := if a <? b then b else a in
    let lo := if a <? b then a else b in
    if hi =? 0 then 0
    else hi * PrimFloat.sqrt (1 + (lo / hi) * (lo / hi)).

(** [pi/2] in three parts, the first two with trailing zero bits. *)
Definition pio2_1 : float := 0x1.921fb544p+0.
Definition pio2_2 : float := 0x1.0b4611a6p-34.
Definition pio2_3 : float := 0x1.3198a2e037073p-69.
Definition pio2_hi : float := 0x1.921fb54442d18p+0.
Definition pio2_lo : float := 0x1.1a62633145c07p-54.

(** The sum of [c_k * q^k] for the coefficients given from the highest
    power down. *)
Fixpoint horner (cs : list float) (q acc : float) : float :=
  match cs with
  | [] => acc
  | c :: cs' => horner cs' q (acc * q + c)
  end.

Fixpoint factorial (n : nat) : Z :=
  match n with
  | O => 1%Z
  | S n' => (Z.of_nat n * factorial n')%Z
  end.

(** [(-1)^k / (2k + i)!] for [k] from [n] down to [0]. *)
Fixpoint series (i n : nat) : list float :=
  let c := float_of_Z (if Nat.even n then 1 else -1)
           / float_of_Z (factorial (2 * n + i)) in
  match n with
  | O => [c]
  | S n' => c :: series i n'
  end.

Definition sin_series : list float := Eval vm_compute in series 1 9.
Definition cos_series : list float := Eval vm_compute in series 0 9.

Definition sin_poly (r : float) : float := r * horner sin_series (r * r) 0.
Definition cos_poly (r : float) : float := horner cos_series (r * r) 0.

(** The argument less the nearest multiple of [pi/2], and that multiple. *)
Definition reduce (v : float) : float * Z :=
  let k := nearest_Z (v / pio2_hi) in
  let kf := float_of_Z k in
  (((v - kf * pio2_1) - kf * pio2_2) - kf * pio2_3, k).

Definition Math_sin (v : float) : float :=
  if negb (is_finite v) then nan
  else if v =? 0 then v
  else
    let (r, k) := reduce v in
    match (k mod 4)%Z with
    | 0%Z => sin_poly r
    | 1%Z => cos_poly r
    | 2%Z => - sin_poly r
    | _ => - cos_poly r
    end.

Definition Math_cos (v : float) : float :=
  if negb (is_finite v) then nan
  else if v =? 0 then 1
  else
    let (r, k) := reduce v in
    match (k mod 4)%Z with
    | 0%Z => cos_poly r
    | 1%Z => - sin_poly r
    | 2%Z => - cos_poly r
    | _ => sin_poly r
    end.

(** [(-1)^k / (2k + 1)] for [k] from [n] down to [0]. *)
Fixpoint atan_series (n : nat) : list float :=
  let c := float_of_Z (if Nat.even n then 1 else -1)
           / float_of_Z (2 * Z.of_nat n + 1) in
  match n with
  | O => [c]
  | S n' => c :: atan_series n'
  end.

Definition atan_coefficients : list float := Eval vm_compute in atan_series 24.

(** The arctangent of [0 <= u <= 1]. *)
Definition atan_unit (u : float) : float :=
  let p (q : float) := q * horner atan_coefficients (q * q) 0 in
  if u <? 0x1.a827999fcef32p-2 then p u
  else pio2_hi / 2 + p ((u - 1) / (u + 1)).

(** The arctangent of [u >= 0], [+infinity] included. *)
Definition atan_pos (u : float) : float :=
  if 1 <? u then pio2_hi - (atan_unit (1 / u) - pio2_lo) else atan_unit u.

Definition atan (v : float) : float :=
  if v =? 0 then v
  else if sign_bit v then - atan_pos (- v) else atan_pos v.

(** [Math.atan2(y, x)] *)
Definition Math_atan2 (y x : float) : float :=
  let signed (v : float) := if sign_bit y then - v else v in
  if negb (y =? y) || negb (x =? x) then nan
  else if abs x =? infinity then
    if abs y =? infinity
    then signed (if sign_bit x then 3 * (pio2_hi / 2) else pio2_hi / 2)
    else signed (if sign_bit x then Math_PI else 0)
  else if x =? 0 then
    if y =? 0 then signed (if sign_bit x then Math_PI else 0)
    else signed pio2_hi
  else if sign_bit x then signed (Math_PI - atan_pos (abs (y / x)))
  else atan (y / x).

Definition float_num : JSNum float := {|
  JS.NaN := nan;
  JS.of_Z := float_of_Z;
  JS.neg := PrimFloat.opp;
  JS.add := PrimFloat.add;
  JS.sub := PrimFloat.sub;
  JS.mul := PrimFloat.mul;
  JS.div := PrimFloat.div;
  JS.lt := PrimFloat.ltb;
  JS.seq := PrimFloat.eqb;
  JS.Math_PI := Math_PI;
  JS.Math_abs := PrimFloat.abs;
  JS.Math_sin := Math_sin;
  JS.Math_cos := Math_cos;
  JS.Math_atan2 := Math_atan2;
  JS.Math_hypot := Math_hypot;
  JS.toFixed4 := toFixed4
|}.

End FloatModel.

(** ** Numbers as real numbers

    Exact arithmetic: the operations of the reals, with one extra value
    [NaR] for what is not a real number (the result of a quotient by
    zero, and [NaN]).  Rounding error, overflow and the infinities of the
    doubles are outside this interpretation. *)

Module RealModel.

Local Open Scope R_scope.

Inductive xreal : Type :=
  | Fin (r : R)
  | NaR.

Definition lift1 (f : R -> R) (a : xreal) : xreal :=
  match a with Fin r => Fin (f r) | NaR => NaR end.

Definition lift2 (f : R -> R -> R) (a b : xreal) : xreal :=
  match a, b with Fin r, Fin q => Fin (f r q) | _, _ => NaR end.

Definition xdiv (a b : xreal) : xreal :=
  match a, b with
  | Fin r, Fin q => if Req_dec_T q 0 then NaR else Fin (r / q)
  | _, _ => NaR
  end.

Definition xlt (a b : xreal) : bool :=
  match a, b with
  | Fin r, Fin q => if Rlt_dec r q then true else false
  | _, _ => false
  end.

Definition xseq (a b : xreal) : bool :=
  match a, b with
  | Fin r, Fin q => if Req_dec_T r q then true else false
  | _, _ => false
  end.

(** The angle of the point [(x, y)], in [(-PI, PI]]. *)
Definition atan2 (y x : R) : R :=
  if Rlt_dec 0 x then atan (y / x)
  else if Rlt_dec x 0 then
    if Rle_dec 0 y then atan (y / x) + PI else atan (y / x) - PI
  else if Rlt_dec 0 y then PI / 2
  else if Rlt_dec y 0 then - (PI / 2)
  else 0.

Definition hypot (a b : R) : R := sqrt (a * a + b * b).

(** The multiple of [10^-4] nearest to [r], the one away from zero on a
    tie. *)
Definition round4 (r : R) : R :=
  if Rlt_dec r 0 then - (IZR (Zfloor (- r * 10000 + / 2)) / 10000)
  else IZR (Zfloor (r * 10000 + / 2)) / 10000.

Definition real_num : JSNum xreal := {|
  JS.NaN := NaR;
  JS.of_Z := fun z => Fin (IZR z);
  JS.neg := lift1 Ropp;
  JS.add := lift2 Rplus;
  JS.sub := lift2 Rminus;
  JS.mul := lift2 Rmult;
  JS.div := xdiv;
  JS.lt := xlt;
  JS.seq := xseq;
  JS.Math_PI := Fin PI;
  JS.Math_abs := lift1 Rabs;
  JS.Math_sin := lift1 sin;
  JS.Math_cos := lift1 cos;
  JS.Math_atan2 := lift2 atan2;
  JS.Math_hypot := lift2 hypot;
  JS.toFixed4 := lift1 round4
|}.

End RealModel.

(** * Specification predicates *)

Module Spec.
Import Turtle.
Section Spec.
Context (num : Type) {N : JSNum num}.
Local Open Scope js_scope.




(** The last snapshot of the log, if there is one, records the abscissa
    the turtle is at. *)
Definition tail_in_place (t : session num) : Prop :=
  forall e, last_of (_states t) = Some e ->
    State.x e = State.x (_state t)
    \/ (State.x e === State.x (_state t)) = true.

(** What holds between two commands: the turtle is set to animate its
    next move, and the tail of the log is in place. *)
Definition settled (t : session num) : Prop :=
  State.animateMovement (_state t) = true /\ tail_in_place t.

(** What a call of [_pushState] adds to the log. *)
Definition pushed (t : session num) : list (State.t num) :=
  match last_of (_states t) with
  | None => [_state t]
  | Some e => if State.differs e (_state t) then [_state t] else []
  end.

(** The current state with another facing. *)
Definition facing (a : num) (t : session num) : session num :=
  assign (State.set_angle a) t.

(** [t'] has the heading [a], and its log is the log of [t] followed by
    snapshots that all carry the angle [a]. *)
Definition keeps_heading (a : num) (t t' : session num) : Prop :=
  State.angle (_state t') = a
  /\ exists app, _states t' = _states t ++ app
                 /\ Forall (fun s => State.angle s = a) app.

(** [u] is [t] but for the facing of the turtle and the log. *)
Definition same_but_facing (t u : session num) : Prop :=
  (exists a, _state u = State.set_angle a (_state t))
  /\ canvas_width u = canvas_width t
  /\ canvas_height u = canvas_height t.

(** The direction and the first values of the local variables of
    [_moveTo(targetX, targetY)]. *)
Definition bearing (targetX targetY : num) (t : session num) : num :=
  Math_atan2 (targetX - State.x (_state t)) (targetY - State.y (_state t)).

Definition start (targetX targetY : num) (t : session num) : tracer num :=
  mkTracer (State.x (_state t)) (State.y (_state t))
           (_distanceTo targetX targetY t) t.





(** The target of a move command. *)
Definition target_of (c : command num) (t : session num) : option (num * num) :=
  match c with
  | Forward d => Some (_distanceTarget d t)
  | Backward d => Some (_distanceTarget (d * - lit 1) t)
  | Goto x y => Some (x, y)
  | _ => None
  end.

(** The move command [c] appends one snapshot, at the target rounded to
    four decimals. *)
Definition appends_one_at_target (c : command num) (t : session num) : Prop :=
  exists fuel t' targetX targetY snap,
    target_of c t = Some (targetX, targetY)
    /\ exec fuel c t = Some t'
    /\ _states t' = _states t ++ [snap]
    /\ State.x snap = toFixed4 targetX
    /\ State.y snap = toFixed4 targetY.

(** The point the tracer computes for a move that crosses no boundary. *)
Definition end_point (targetX targetY : num) (t : session num) : num * num :=
  let d := _distanceTo targetX targetY t in
  let angle := bearing targetX targetY t in
  (State.x (_state t) + Math_sin angle * d,
   State.y (_state t) + Math_cos angle * d).

End Spec.
End Spec.

(** * The same session on a canvas of another height *)

Module Canvas.
Import Turtle.
Section Canvas.
Context (num : Type).



End Canvas.
End Canvas.

(** * Sessions to run *)

Module Examples.
Import Turtle Spec FloatModel.
#[local] Existing Instance float_num.
Local Open Scope float_scope.

(** A new turtle on a canvas of 800 by 600. *)
Definition fresh : session float := constructor 800 600.

(** The session after a client program, on doubles. *)
Definition after (p : list (command float)) : session float :=
  match run 10 p fresh with
  | Some t => t
  | None => fresh
  end.

(** The turtle teleported to the right of the canvas, wrap still on. *)
Definition strayed : session float := tp 1000 0 fresh.

(** Wrap turned off. *)
Definition unwrapped : session float := wrap false fresh.

(** A short line to the right, recorded and then played. *)
Definition drawn : session float := after [Setheading 90; Forward 30].
Definition played : session float := after [Setheading 90; Forward 30; Done].

(** Position, angle and [animateMovement] of a snapshot. *)
Definition place (s : State.t float) : float * float * float * bool :=
  (State.x s, State.y s, State.angle s, State.animateMovement s).





(** *** The height of the canvas in [twice_width_trace] *)




End Examples.

(** A new turtle on a canvas of 800 by 600, in exact arithmetic, turned
    to face right. *)
Module RealExamples.
Import Turtle RealModel.
#[local] Existing Instance real_num.

Definition facing_right : session xreal :=
  setheading (lit 90) (constructor 800 600).

End RealExamples.

(** * The helpers [random] and [repeat], and what playback emits *)

(** [Math.floor] and [<=], which only [random] and [repeat] use. *)
Module JSMore.

Class JSInt (num : Type) : Type := {
  Math_floor : num -> num;
  le : num -> num -> bool
}.

End JSMore.

Import JSMore.

Notation "a <=? b" := (le a b) : js_scope.

Module Helpers.
Import Turtle.
Section Helpers.
Context (num : Type) {N : JSNum num} {M : JSInt num}.
Local Open Scope js_scope.

(** random(low, hi), for the value [u] that [Math.random()] returns. *)
Definition random (u low hi : num) : num :=
  Math_floor (u * (hi - low + lit 1) + low).

(** [for (let count = 1; count <= n; count++) { action(); }]; [None] when
    the loop is still running after [fuel] calls of [action], or when a
    call of [action] does not return. *)
Fixpoint repeat_loop (fuel : nat) (count n : num)
  (action : session num -> option (session num)) (t : session num)
  : option (session num) :=
  if count <=? n then
    match fuel with
    | O => None
    | S fuel' =>
        match action t with
        | None => None
        | Some t' => repeat_loop fuel' (count + lit 1) n action t'
        end
    end
  else Some t.

(** repeat(n, action) *)
Definition repeat (fuel : nat) (n : num)
  (action : session num -> option (session num)) (t : session num)
  : option (session num) :=
  repeat_loop fuel (lit 1) n action t.

End Helpers.
End Helpers.

Module FloatHelpers.
Import FloatModel.
Local Open Scope float_scope.

(** [Math.floor] on doubles: a value with no fractional bits is its own
    floor, the other finite ones are below [2^53] in magnitude. *)
Definition float_floor (v : float) : float :=
  match Prim2SF v with
  | S754_finite s m e =>
      if (0 <=? e)%Z then v
      else
        let n := ((if s then Z.neg m else Z.pos m) / 2 ^ (- e))%Z in
        if (n =? 0)%Z then 0 else float_of_Z n
  | _ => v
  end.

Definition float_int : JSInt float := {|
  Math_floor := float_floor;
  le := PrimFloat.leb
|}.

End FloatHelpers.

(** What is observed of commands and of playback. *)
Module Observe.
Import Turtle.
Section Observe.
Context (num : Type) {N : JSNum num}.
Local Open Scope js_scope.

(** The commands that record: all but [reset] and [done]. *)
Definition recording (c : command num) : bool :=
  match c with
  | Reset | Done => false
  | _ => true
  end.

(** The commands that set fields to values given by their arguments
    alone ([home] apart). *)
Definition absolute (c : command num) : bool :=
  match c with
  | Clear | Speed _ | Wrap _ | HideTurtle | ShowTurtle | RedrawOnMove _
  | Penup | Pendown | Tp _ _ | Setheading _ | Setangle _ | Width _
  | Color _ _ | Bgcolor _ _ => true
  | _ => false
  end.

(** [s'] is [s] but for the position and [animateMovement]. *)
Definition moved_from (s s' : State.t num) : Prop :=
  s' = State.set_animateMovement (State.animateMovement s')
         (State.set_y (State.y s') (State.set_x (State.x s') s)).

(** The surface calls that change the style or clear the image. *)
Definition is_style (op : render_op num) : bool :=
  match op with
  | ClearImage | SetLineWidth _ | SetStrokeStyle _ | SetBackground _ => true
  | _ => false
  end.

(** The style calls that one snapshot stands for. *)
Definition style_ops (s : State.t num) : list (render_op num) :=
  (if State.clear s then [ClearImage] else [])
  ++ [SetLineWidth (State.width s); SetStrokeStyle (State.color s);
      SetBackground (State.bgcolor s)].

Definition is_path (op : render_op num) : bool :=
  match op with Path _ _ _ _ _ => true | _ => false end.

Definition is_draw (op : render_op num) : bool :=
  match op with Draw _ => true | _ => false end.

(** A call that puts ink on the image. *)
Definition strokes (op : render_op num) : bool :=
  match op with Path _ _ _ _ stroked => stroked | _ => false end.

(** A wait of some length other than the literal [0]. *)
Definition waits (op : render_op num) : Prop :=
  match op with Sleep ms => ms <> lit 0 | _ => False end.

(** The test of [done] for animating from [s] to its successor [n]. *)
Definition animated (s n : State.t num) : bool :=
  State.animateMovement n
  && ((State.x n !== State.x s) || (State.y n !== State.y s)).

(** No snapshot of the log is animated into. *)
Fixpoint still (l : list (State.t num)) : Prop :=
  match l with
  | s :: (n :: _) as l' => animated s n = false /\ still l'
  | _ => True
  end.

(** Two states with the same numbers. *)
Definition same_numbers (a b : State.t num) : Prop :=
  State.x a = State.x b /\ State.y a = State.y b
  /\ State.angle a = State.angle b /\ State.width a = State.width b
  /\ State.speed a = State.speed b.

(** The log of [t'] is the log of [t] with snapshots appended. *)
Definition extends (t t' : session num) : Prop :=
  exists app, _states t' = _states t ++ app.

(** Nothing was drawn and the canvas is the same. *)
Definition untouched (t t' : session num) : Prop :=
  rendered t' = rendered t
  /\ canvas_width t' = canvas_width t
  /\ canvas_height t' = canvas_height t.

(** The flags that commands raise for one snapshot are back in place. *)
Definition flags_down (s : State.t num) : Prop :=
  State.clear s = false /\ State.instant s = false
  /\ State.animateMovement s = true.

(** From [t] to [t'] the state and the snapshots appended differ from [s]
    in the position and [animateMovement] only. *)
Definition traces (s : State.t num) (t t' : session num) : Prop :=
  moved_from s (_state t')
  /\ exists app, _states t' = _states t ++ app /\ Forall (moved_from s) app.

(** What [done] may call after the style calls of a snapshot [s], before
    it animates. *)
Definition show_op (s : State.t num) (op : render_op num) : Prop :=
  (op = Draw s /\ State.redraw s = true)
  \/ (op = Sleep stepDelay /\ State.instant s = false
      /\ (ToNumber (State.speed s) >? lit 0) = true).

(** What an animation frame that starts from the snapshot [s] may call. *)
Definition frame_op (s : State.t num) (op : render_op num) : Prop :=
  op = Sleep (frameDelay s)
  \/ (exists x y x' y', op = Path x y x' y' (State.penDown s))
  \/ (exists u, op = Draw u /\ moved_from s u /\ State.redraw s = true).

(** The shape of the calls a playback of a log makes: per snapshot its
    style calls, then calls of [show_op], then frames, which need a
    successor that is animated into. *)
Inductive emitted : list (State.t num) -> list (render_op num) -> Prop :=
  | emitted_nil : emitted [] []
  | emitted_cons : forall s rest shown frames ops,
      Forall (show_op s) shown ->
      Forall (frame_op s) frames ->
      (frames <> [] -> exists n, hd_error rest = Some n /\ animated s n = true) ->
      emitted rest ops ->
      emitted (s :: rest) (style_ops s ++ shown ++ frames ++ ops).

(** [P] holds of every snapshot of the log that is animated from. *)
Fixpoint animated_from (P : State.t num -> Prop) (l : list (State.t num)) : Prop :=
  match l with
  | s :: (n :: _) as l' => (animated s n = true -> P s) /\ animated_from P l'
  | _ => True
  end.

End Observe.

Arguments is_style {num} op.
Arguments is_path {num} op.
Arguments is_draw {num} op.
Arguments strokes {num} op.
Arguments style_ops {num} s.
Arguments moved_from {num} s s'.

End Observe.

(** Sessions for the helpers and for playback, on doubles. *)
Module MoreExamples.
Import Turtle Spec FloatModel Examples.
#[local] Existing Instance float_num.
Local Open Scope float_scope.

(** A speed whose square underflows to zero, and a line drawn at it. *)
Definition crawling : session float :=
  after [Speed (SpeedCode 0x1p-600); Forward 10].

(** Styles only: nothing moves. *)
Definition styled : session float :=
  after [Penup; Color "255" ["0"; "0"]; Width 3; Clear].

(** A line with the pen up, at full speed, without redraw. *)
Definition quiet : session float :=
  after [Penup; RedrawOnMove false; Speed (SpeedName "fastest"); Forward 30].

End MoreExamples.

(** * Properties of the model, for every interpretation of numbers *)

Module TurtleProps.
Import Turtle Spec.

Section Generic.
Context (num : Type) {N : JSNum num}.
Local Open Scope js_scope.

(** ** The log and [_pushState] *)

Lemma last_of_app (l : list (State.t num)) (e : State.t num) :
  last_of (l ++ [e]) = Some e.
Proof.
  induction l as [|a l IH]; [reflexivity|].
  simpl. destruct (l ++ [e]) eqn:E; [destruct l; discriminate|exact IH].
Qed.

Lemma state_pushState (t : session num) : _state (_pushState t) = _state t.
Proof. unfold _pushState. destruct (_stateHasChanged t); reflexivity. Qed.

Lemma canvas_pushState (t : session num) :
  canvas_width (_pushState t) = canvas_width t
  /\ canvas_height (_pushState t) = canvas_height t.
Proof. unfold _pushState. destruct (_stateHasChanged t); split; reflexivity. Qed.

Lemma rendered_pushState (t : session num) : rendered (_pushState t) = rendered t.
Proof. unfold _pushState. destruct (_stateHasChanged t); reflexivity. Qed.

(** What [_pushState] does to the log. *)
Lemma states_pushState (t : session num) :
  _states (_pushState t)
  = if _stateHasChanged t then _states t ++ [_state t] else _states t.
Proof. unfold _pushState. destruct (_stateHasChanged t); reflexivity. Qed.

(** A difference in the one-shot flag alone makes two states different. *)
Lemma differs_clear (a b : State.t num) :
  State.clear a <> State.clear b -> State.differs a b = true.
Proof.
  intros H. unfold State.differs.
  assert (E : negb (Bool.eqb (State.clear a) (State.clear b)) = true).
  { destruct (State.clear a), (State.clear b); simpl; congruence. }
  rewrite E. rewrite !orb_true_r. reflexivity.
Qed.

(** ** reset *)

Lemma init_log (t : session num) :
  _states (_init t) = [default_state] /\ _state (_init t) = default_state.
Proof. split; reflexivity. Qed.

(** C10.  [reset()] throws away whatever the log held: afterwards the log
    is exactly the default state followed by a copy of it that carries
    the one-shot [clear] flag, and the current state is the default state
    again, its [clear] flag false. *)
Theorem reset_log (t : session num) :
  _states (reset t) = [default_state; State.set_clear true default_state]
  /\ _state (reset t) = default_state
  /\ State.clear (_state (reset t)) = false.
Proof.
  assert (D : State.differs default_state (State.set_clear true default_state)
              = true).
  { apply differs_clear. simpl. discriminate. }
  unfold reset, clear, _pushState, _stateHasChanged.
  destruct (init_log t) as [Hl Hs].
  simpl. rewrite D. simpl. auto.
Qed.

(** ** Headings *)

(** C9.  Angles are stored as given: [setheading(450)] then [heading()]
    gives [450]; whatever angle is set is the one read back, and [right]
    and [left] add and subtract their argument, with no reduction of the
    result to a range. *)
Theorem heading_not_normalized (t : session num) (a : num) :
  heading (setheading (lit 450) t) = lit 450
  /\ heading (setheading a t) = a
  /\ heading (right a t) = heading t + a
  /\ heading (left a t) = heading t - a.
Proof.
  unfold heading, setheading, right, left.
  rewrite !state_pushState. simpl. auto.
Qed.

(** ** Named speeds *)

(** The five names of the table store their codes; [fastest] stores [0],
    which the fallback leaves alone. *)
Lemma speed_named_levels (t : session num) :
  let stored name := State.speed (_state (speed (SpeedName name) t)) in
  stored "fastest" = VNum (lit 0)
  /\ stored "fast" = VNum (lit 10)
  /\ stored "normal" = VNum (lit 6)
  /\ stored "slow" = VNum (lit 3)
  /\ stored "slowest" = VNum (lit 1).
Proof.
  unfold speed. rewrite !state_pushState. simpl. repeat split; reflexivity.
Qed.

(** A name that [SPEEDS] neither defines nor inherits stores the code of
    [normal]. *)
Lemma speed_unknown_name (t : session num) (name : string) :
  own_property name SPEEDS = None -> inherited name = false ->
  State.speed (_state (speed (SpeedName name) t)) = VNum (lit 6).
Proof.
  intros Ho Hi. unfold speed. rewrite state_pushState. simpl.
  unfold SPEEDS_get at 1. rewrite Ho, Hi. reflexivity.
Qed.

(** C8.  A name that [SPEEDS] inherits from [Object.prototype] is not
    unknown to the lookup: [speed("constructor")] finds a function, which
    is not [undefined], and stores it instead of the code [6]. *)
Theorem speed_inherited_name (t : session num) :
  own_property "constructor" SPEEDS = None
  /\ State.speed (_state (speed (SpeedName "constructor") t))
     = VBuiltin "constructor"
  /\ State.speed (_state (speed (SpeedName "constructor") t)) <> VNum (lit 6).
Proof.
  unfold speed. rewrite !state_pushState. simpl.
  repeat split; try reflexivity. discriminate.
Qed.

(** ** Playback *)

Lemma play_empty (fuel : nat) : play fuel [] None = Some [].
Proof. destruct fuel; reflexivity. Qed.

(** [done] on an empty log returns the session as it is. *)
Lemma done_empty (fuel : nat) (t : session num) :
  _states t = [] -> done fuel t = Some t.
Proof.
  intros H. unfold done. rewrite H, play_empty.
  destruct t as [l s w h r]. simpl in H. subst l.
  unfold with_states, render. simpl. rewrite app_nil_r. reflexivity.
Qed.

Lemma done_states (fuel : nat) (t t' : session num) :
  done fuel t = Some t' -> _states t' = [].
Proof.
  unfold done. destruct (play fuel (_states t) None); [|discriminate].
  intros H. injection H as <-. reflexivity.
Qed.

(** C6.  When [done] returns, the log is empty; a second [done] right
    after it, however long it is allowed to run, walks over no entry,
    makes no call on the rendering surface and returns the same session,
    the log still empty. *)
Theorem done_drains_log (fuel : nat) (t t' : session num) :
  done fuel t = Some t' ->
  _states t' = []
  /\ forall fuel',
       play fuel' (_states t') None = Some [] /\ done fuel' t' = Some t'.
Proof.
  intros H. pose proof (done_states _ _ H) as Hl.
  split; [exact Hl|].
  intros fuel'. rewrite Hl. split; [apply play_empty|].
  apply done_empty, Hl.
Qed.

(** ** The log has no two equal neighbours *)

Lemma states_pushState_pushed (t : session num) :
  _states (_pushState t) = _states t ++ pushed t.
Proof.
  rewrite states_pushState. unfold _stateHasChanged, pushed.
  destruct (last_of (_states t)) as [e|]; [|reflexivity].
  simpl. destruct (State.differs e (_state t)); [reflexivity|].
  symmetry. apply app_nil_r.
Qed.










Lemma reachable_run (fuel : nat) (p : list (command num)) (t t' : session num) :
  reachable t -> run fuel p t = Some t' -> reachable t'.
Proof.
  revert t. induction p as [|c p IH]; simpl; intros t R.
  - intros E. injection E as <-. exact R.
  - destruct (exec fuel c t) as [u|] eqn:E; [|discriminate].
    apply IH. exact (reach_exec _ _ R E).
Qed.




(** ** The tracer *)

Lemma moveTo_unfold (fuel : nat) (x y : num) (t : session num) :
  _moveTo fuel x y t = trace_loop fuel (bearing x y t) (start x y t).
Proof. reflexivity. Qed.

Lemma moveTo_zero_distance {L : JSNumLaws N} (fuel : nat) (x y : num)
  (t : session num) :
  (_distanceTo x y t === lit 0) = true -> _moveTo fuel x y t = Some t.
Proof.
  intros H. apply seq_not_gt in H.
  rewrite moveTo_unfold. destruct fuel; simpl; rewrite H; reflexivity.
Qed.

(** C5.  A move whose distance to the target is zero does nothing: the
    condition of the loop fails at once, so that not one iteration is
    needed, and the session, its log included, is returned as it was. *)
Theorem zero_distance_is_noop {L : JSNumLaws N} (x y : num) (t : session num) :
  (_distanceTo x y t === lit 0) = true ->
  forall fuel, _moveTo fuel x y t = Some t
               /\ trace_loop 0 (bearing x y t) (start x y t) = Some t.
Proof.
  intros H fuel. split.
  - apply moveTo_zero_distance, H.
  - rewrite <- moveTo_unfold. apply moveTo_zero_distance, H.
Qed.

(** *** Headings along a move *)

Lemma keeps_heading_refl (t : session num) :
  keeps_heading (State.angle (_state t)) t t.
Proof.
  split; [reflexivity|]. exists []. rewrite app_nil_r. auto.
Qed.

Lemma keeps_heading_trans (a : num) (t u v : session num) :
  keeps_heading a t u -> keeps_heading a u v -> keeps_heading a t v.
Proof.
  intros [_ (l1 & E1 & F1)] [Hv (l2 & E2 & F2)].
  split; [exact Hv|]. exists (l1 ++ l2).
  rewrite E2, E1, app_assoc. split; [reflexivity|].
  apply Forall_app. auto.
Qed.

Lemma keeps_heading_pushState (a : num) (t : session num) :
  State.angle (_state t) = a -> keeps_heading a t (_pushState t).
Proof.
  intros H. split; [rewrite state_pushState; exact H|].
  exists (pushed t). split; [apply states_pushState_pushed|].
  unfold pushed. destruct (last_of (_states t)) as [e|];
    [destruct (State.differs e (_state t))|]; auto.
Qed.

Lemma keeps_heading_setPos (a x y : num) (t : session num) :
  State.angle (_state t) = a -> keeps_heading a t (_setPos x y t).
Proof.
  intros H. unfold _setPos.
  exact (keeps_heading_pushState
           (assign (State.set_y (toFixed4 y)) (assign (State.set_x (toFixed4 x)) t)) H).
Qed.

Lemma keeps_heading_tp (a x y : num) (t : session num) :
  State.angle (_state t) = a -> keeps_heading a t (tp x y t).
Proof.
  intros H. unfold tp.
  destruct (keeps_heading_setPos x y (assign (State.set_animateMovement false) t) H)
    as [Ha Hl].
  split; [exact Ha | exact Hl].
Qed.

Lemma keeps_heading_trace_step (a angle : num) (k : tracer num) :
  State.angle (_state (self k)) = a ->
  keeps_heading a (self k) (self (trace_step angle k)).
Proof.
  intros H. unfold trace_step.
  destruct (crossing_of _ _ _); unfold xWrap, yWrap, noWrap; cbn [self].
  1-4: (eapply keeps_heading_trans;
         [apply keeps_heading_setPos; exact H
         |apply keeps_heading_tp, keeps_heading_setPos; exact H]).
  apply keeps_heading_setPos; exact H.
Qed.

Lemma keeps_heading_trace_loop (fuel : nat) (a angle : num) (k : tracer num)
  (t' : session num) :
  State.angle (_state (self k)) = a ->
  trace_loop fuel angle k = Some t' -> keeps_heading a (self k) t'.
Proof.
  revert k. induction fuel as [|fuel IH]; intros k Hk; simpl;
    destruct (remainingDistance k >? lit 0); try discriminate;
    try (intros E; injection E as <-; subst a; apply keeps_heading_refl).
  intros E.
  pose proof (keeps_heading_trace_step angle k Hk) as [Ha Hl].
  eapply keeps_heading_trans; [split; eassumption|].
  apply IH; assumption.
Qed.

(** *** The facing does not steer a move *)

Lemma same_but_facing_pushState (t u : session num) :
  same_but_facing t u -> same_but_facing (_pushState t) (_pushState u).
Proof.
  intros (Hs & Hw & Hh). unfold same_but_facing.
  rewrite !state_pushState.
  destruct (canvas_pushState t) as [-> ->].
  destruct (canvas_pushState u) as [-> ->]. auto.
Qed.

Lemma same_but_facing_assign (f : State.t num -> State.t num) (t u : session num) :
  (forall a s, f (State.set_angle a s) = State.set_angle a (f s)) ->
  same_but_facing t u -> same_but_facing (assign f t) (assign f u).
Proof.
  intros Hf ([a Hs] & Hw & Hh). split; [|split; assumption].
  exists a. simpl. rewrite Hs. apply Hf.
Qed.

Lemma same_but_facing_setPos (x y : num) (t u : session num) :
  same_but_facing t u -> same_but_facing (_setPos x y t) (_setPos x y u).
Proof.
  intros H. unfold _setPos.
  apply same_but_facing_pushState.
  apply same_but_facing_assign; [reflexivity|].
  apply same_but_facing_assign; [reflexivity|exact H].
Qed.

Lemma same_but_facing_tp (x y : num) (t u : session num) :
  same_but_facing t u -> same_but_facing (tp x y t) (tp x y u).
Proof.
  intros H. unfold tp.
  apply same_but_facing_assign; [reflexivity|].
  apply same_but_facing_setPos.
  apply same_but_facing_assign; [reflexivity|exact H].
Qed.

Lemma same_but_facing_bounds (t u : session num) :
  same_but_facing t u ->
  maxX u = maxX t /\ minX u = minX t /\ maxY u = maxY t /\ minY u = minY t
  /\ State.wrap (_state u) = State.wrap (_state t)
  /\ position u = position t.
Proof.
  intros ([a Hs] & Hw & Hh). unfold maxX, minX, maxY, minY, position.
  rewrite Hw, Hh, Hs. repeat split; reflexivity.
Qed.

Lemma same_but_facing_trace_step (angle : num) (k j : tracer num) :
  cur_x j = cur_x k -> cur_y j = cur_y k ->
  remainingDistance j = remainingDistance k ->
  same_but_facing (self k) (self j) ->
  let k' := trace_step angle k in
  let j' := trace_step angle j in
  cur_x j' = cur_x k' /\ cur_y j' = cur_y k'
  /\ remainingDistance j' = remainingDistance k'
  /\ same_but_facing (self k') (self j').
Proof.
  intros Hx Hy Hr H. simpl.
  destruct (same_but_facing_bounds H) as (E1 & E2 & E3 & E4 & E5 & _).
  unfold trace_step, crossing_of.
  rewrite Hx, Hy, Hr, E1, E2, E3, E4, E5.
  assert (S4 : forall x y, same_but_facing (_setPos x y (self k))
                                           (_setPos x y (self j)))
    by (intros; apply same_but_facing_setPos; exact H).
  destruct (State.wrap (_state (self k)));
    repeat match goal with
           | |- context [if ?c then _ else _] => destruct c
           end;
    unfold xWrap, yWrap, noWrap; simpl; rewrite ?Hx, ?Hy, ?Hr;
    (split; [|split; [|split]]); try reflexivity;
    try (apply same_but_facing_tp); apply S4.
Qed.

Lemma same_but_facing_trace_loop (fuel : nat) (angle : num) (k j : tracer num) :
  cur_x j = cur_x k -> cur_y j = cur_y k ->
  remainingDistance j = remainingDistance k ->
  same_but_facing (self k) (self j) ->
  option_map (@position num) (trace_loop fuel angle j)
  = option_map (@position num) (trace_loop fuel angle k).
Proof.
  revert k j. induction fuel as [|fuel IH]; intros k j Hx Hy Hr H; simpl;
    rewrite Hr; destruct (remainingDistance k >? lit 0); try reflexivity;
    try (simpl; f_equal; apply (same_but_facing_bounds H)).
  destruct (same_but_facing_trace_step angle k j Hx Hy Hr H)
    as (Hx' & Hy' & Hr' & H').
  apply IH; assumption.
Qed.

(** C7.  [goto(x, y)] traces along the bearing from the current position
    to the target, whatever the facing: when it returns, [heading()] is
    what it was, every snapshot it appended carries that same angle, and
    the same call on a turtle that faces any other way ends at the same
    position. *)
Theorem goto_keeps_heading (fuel : nat) (x y : num) (t t' : session num) :
  goto fuel x y t = Some t' ->
  heading t' = heading t
  /\ (exists app, _states t' = _states t ++ app
                  /\ Forall (fun s => State.angle s = heading t) app)
  /\ goto fuel x y t
     = trace_loop fuel
         (Math_atan2 (x - State.x (_state t)) (y - State.y (_state t)))
         (start x y t)
  /\ forall a, option_map (@position num) (goto fuel x y (facing a t))
               = Some (position t').
Proof.
  intros E. unfold goto in *.
  destruct (@keeps_heading_trace_loop fuel (heading t) (bearing x y t)
              (start x y t) t' eq_refl E) as [Ha Hl].
  split; [exact Ha|]. split; [exact Hl|]. split; [reflexivity|].
  intros a. rewrite !moveTo_unfold.
  replace (Some (position t'))
    with (option_map (@position num) (trace_loop fuel (bearing x y t) (start x y t)))
    by (rewrite <- moveTo_unfold, E; reflexivity).
  apply same_but_facing_trace_loop; try reflexivity.
  split; [exists a; reflexivity | split; reflexivity].
Qed.

(** ** Sessions between commands *)

Lemma differs_false_x (a b : State.t num) :
  State.differs a b = false -> (State.x a === State.x b) = true.
Proof.
  unfold State.differs. intros H.
  repeat (apply orb_false_elim in H; destruct H as [H _]).
  apply negb_false_iff. exact H.
Qed.

Lemma tail_in_place_pushState (t : session num) : tail_in_place (_pushState t).
Proof.
  unfold tail_in_place. intros e. rewrite state_pushState, states_pushState_pushed.
  unfold pushed. destruct (last_of (_states t)) as [e'|] eqn:E.
  - destruct (State.differs e' (_state t)) eqn:D.
    + rewrite last_of_app. intros H. injection H as <-. left. reflexivity.
    + rewrite app_nil_r, E. intros H. injection H as <-.
      right. apply differs_false_x, D.
  - rewrite last_of_app. intros H. injection H as <-. left. reflexivity.
Qed.

Lemma tail_in_place_assign (f : State.t num -> State.t num) (t : session num) :
  (forall s, State.x (f s) = State.x s) ->
  tail_in_place t -> tail_in_place (assign f t).
Proof.
  intros Hf H e He. simpl. rewrite Hf. apply H. exact He.
Qed.

(** A command made of an assignment that leaves the abscissa and the
    animation flag alone, followed by [_pushState]. *)
Lemma settled_assign_push (f : State.t num -> State.t num) (t : session num) :
  (forall s, State.animateMovement (f s) = State.animateMovement s) ->
  settled t -> settled (_pushState (assign f t)).
Proof.
  intros Hf [Ha _]. split; [|apply tail_in_place_pushState].
  rewrite state_pushState. simpl. rewrite Hf. exact Ha.
Qed.

Lemma settled_setPos (x y : num) (t : session num) :
  settled t -> settled (_setPos x y t).
Proof.
  intros [Ha _]. unfold _setPos. split; [|apply tail_in_place_pushState].
  rewrite state_pushState. exact Ha.
Qed.

Lemma settled_tp (x y : num) (t : session num) : settled (tp x y t).
Proof.
  unfold tp. split; [reflexivity|].
  apply tail_in_place_assign; [reflexivity|].
  unfold _setPos. apply tail_in_place_pushState.
Qed.

Lemma settled_trace_step (angle : num) (k : tracer num) :
  settled (self k) -> settled (self (trace_step angle k)).
Proof.
  intros H. unfold trace_step.
  destruct (crossing_of _ _ _); unfold xWrap, yWrap, noWrap; cbn [self].
  1-4: apply settled_tp.
  apply settled_setPos, H.
Qed.

Lemma settled_trace_loop (fuel : nat) (angle : num) (k : tracer num)
  (t' : session num) :
  settled (self k) -> trace_loop fuel angle k = Some t' -> settled t'.
Proof.
  revert k. induction fuel as [|fuel IH]; intros k Hk; simpl;
    destruct (remainingDistance k >? lit 0); try discriminate;
    try (intros E; injection E as <-; exact Hk).
  apply IH, settled_trace_step, Hk.
Qed.

Lemma settled_exec (fuel : nat) (c : command num) (t t' : session num) :
  settled t -> exec fuel c t = Some t' -> settled t'.
Proof.
  intros H.
  assert (P : forall f : State.t num -> State.t num,
             (forall s, State.animateMovement (f s) = State.animateMovement s) ->
             settled (_pushState (assign f t)))
    by (intros f Hf; apply settled_assign_push; assumption).
  assert (M : forall x y, _moveTo fuel x y t = Some t' -> settled t')
    by (intros x y; unfold _moveTo; apply settled_trace_loop; exact H).
  destruct c; cbn [exec]; try (intros E; injection E as <-).
  - unfold clear. destruct H as [Ha _]. split.
    + cbn [assign _state with_state]. rewrite state_pushState. exact Ha.
    + apply tail_in_place_assign; [reflexivity|].
      apply tail_in_place_pushState.
  - unfold reset, clear. split.
    + cbn [assign _state with_state]. rewrite state_pushState. reflexivity.
    + apply tail_in_place_assign; [reflexivity|].
      apply tail_in_place_pushState.
  - unfold speed. apply P. reflexivity.
  - apply M.
  - apply M.
  - unfold wrap. apply P. reflexivity.
  - unfold hideTurtle. apply P. reflexivity.
  - unfold showTurtle. apply P. reflexivity.
  - unfold redrawOnMove. apply P. reflexivity.
  - unfold penup. apply P. reflexivity.
  - unfold pendown. apply P. reflexivity.
  - unfold right. apply P. reflexivity.
  - unfold left. apply P. reflexivity.
  - apply M.
  - unfold home. split; [reflexivity|].
    apply tail_in_place_assign; [reflexivity|]. apply settled_tp.
  - apply settled_tp.
  - unfold setheading. apply P. reflexivity.
  - unfold setangle, setheading. apply P. reflexivity.
  - unfold width. apply P. reflexivity.
  - unfold color. apply P. reflexivity.
  - unfold bgcolor. apply P. reflexivity.
  - intros E. split.
    + unfold done in E. destruct (play fuel (_states t) None); [|discriminate].
      injection E as <-. apply H.
    + intros e He. rewrite (done_states _ _ E) in He. discriminate.
Qed.

Lemma settled_reachable (t : session num) : reachable t -> settled t.
Proof.
  induction 1 as [w h | fuel c t t' R IH E].
  - split; [reflexivity|]. unfold constructor, _init.
    intros e He. left. simpl in He. injection He as <-. reflexivity.
  - eapply settled_exec; eassumption.
Qed.

(** *** Unfolding the loop *)

Lemma trace_loop_step (fuel : nat) (angle : num) (k : tracer num) :
  (remainingDistance k >? lit 0) = true ->
  trace_loop (S fuel) angle k = trace_loop fuel angle (trace_step angle k).
Proof. intros H. simpl. rewrite H. reflexivity. Qed.

Lemma trace_loop_stop (fuel : nat) (angle : num) (k : tracer num) :
  (remainingDistance k >? lit 0) = false ->
  trace_loop fuel angle k = Some (self k).
Proof. intros H. destruct fuel; simpl; rewrite H; reflexivity. Qed.

(** *** The divisors of the wrap arms *)




(** *** Moves without wrap *)

Lemma exec_move (fuel : nat) (c : command num) (t : session num) (x y : num) :
  target_of c t = Some (x, y) -> exec fuel c t = _moveTo fuel x y t.
Proof.
  destruct c; simpl; try discriminate; intros H; injection H as <- <-;
    reflexivity.
Qed.

Lemma moveTo_no_wrap {L : JSNumLaws N} (fuel : nat) (x y : num) (t : session num) :
  State.wrap (_state t) = false ->
  _moveTo (S fuel) x y t
  = Some (if _distanceTo x y t >? lit 0
          then _setPos (fst (end_point x y t)) (snd (end_point x y t)) t
          else t).
Proof.
  intros W. rewrite moveTo_unfold. simpl.
  destruct (_distanceTo x y t >? lit 0); [|reflexivity].
  unfold trace_step, crossing_of. simpl. rewrite W.
  unfold noWrap. destruct fuel; simpl; rewrite zero_not_gt_zero; reflexivity.
Qed.

(** C4, as the code has it.  With wrap disabled, a move command whose
    distance to the target is greater than zero moves the turtle to the
    point the tracer computes for the target (the current position plus
    the distance along the bearing), rounded to four decimals, and appends
    one snapshot of the new state if it differs from the last entry of the
    log and none otherwise; a move whose distance is not greater than zero
    changes nothing. *)
Theorem no_wrap_move {L : JSNumLaws N} (fuel : nat) (c : command num)
  (t : session num) (x y : num) :
  State.wrap (_state t) = false ->
  target_of c t = Some (x, y) ->
  exists t', exec (S fuel) c t = Some t'
    /\ if _distanceTo x y t >? lit 0 then
         _state t'
         = State.set_y (toFixed4 (snd (end_point x y t)))
             (State.set_x (toFixed4 (fst (end_point x y t))) (_state t))
         /\ position t' = (toFixed4 (fst (end_point x y t)),
                           toFixed4 (snd (end_point x y t)))
         /\ _states t'
            = _states t ++
              match last_of (_states t) with
              | None => [_state t']
              | Some e => if State.differs e (_state t') then [_state t'] else []
              end
       else t' = t.
Proof.
  intros W T. rewrite (exec_move _ _ _ T), (moveTo_no_wrap _ _ _ _ W).
  eexists. split; [reflexivity|].
  destruct (_distanceTo x y t >? lit 0); [|reflexivity].
  unfold _setPos, position. rewrite state_pushState, states_pushState_pushed.
  repeat split.
Qed.

End Generic.
End TurtleProps.

(** * The height of the canvas and the X arms of the tracer *)

Module CanvasProps.
Import Turtle Spec TurtleProps Canvas.
Section Heights.
Context (num : Type) {N : JSNum num}.
Local Open Scope js_scope.








End Heights.
End CanvasProps.

(** * The model on doubles *)

Module FloatProps.
Import Turtle Spec TurtleProps Canvas CanvasProps FloatModel Examples.
#[local] Existing Instance float_num.
Local Open Scope float_scope.
#[local] Set Warnings "-inexact-float".

(** ** The comparison laws hold for the doubles *)

Lemma SFeqb_zero (a : spec_float) :
  SFeqb a (S754_zero false) = true -> exists b, a = S754_zero b.
Proof.
  destruct a as [b|b| |b m e]; simpl; try discriminate.
  - intros _. exists b. reflexivity.
  - destruct b; discriminate.
  - destruct b; discriminate.
Qed.

(** Adding the product of a zero to [x] gives [NaN] or compares as [x]
    does. *)
Lemma SFcompare_zero_term (x r m : spec_float) (b : bool) :
  let v := SF64add x (SF64mul (S754_zero b) r) in
  (SFcompare m v = None /\ SFcompare v m = None)
  \/ (SFcompare m v = SFcompare m x /\ SFcompare v m = SFcompare x m).
Proof.
  destruct r as [br|br| |br mr er]; destruct x as [bx|bx| |bx mx ex];
    destruct m as [bm|bm| |bm mm em]; simpl; auto;
    try (destruct b, br; simpl; auto; fail);
    try (destruct bx; destruct (xorb b br); simpl; auto; fail).
Qed.

Lemma SFcompare_eq_sym (a b : spec_float) :
  SFcompare a b = Some Eq -> SFcompare b a = Some Eq.
Proof.
  destruct a as [sa|sa| |sa ma ea]; destruct b as [sb|sb| |sb mb eb]; simpl;
    try discriminate; try reflexivity;
    try (destruct sa; discriminate); try (destruct sb; discriminate);
    try (destruct sa, sb; (discriminate || reflexivity)).
  destruct sa, sb; try discriminate;
    destruct (Z.compare ea eb) eqn:E; try discriminate;
    apply Z.compare_eq in E; subst eb; rewrite Z.compare_refl;
    rewrite !Pos.compare_cont_spec; simpl;
    destruct (Pos.compare ma mb) eqn:F; try discriminate;
    apply Pos.compare_eq in F; subst mb;
    rewrite Pos.compare_refl; reflexivity.
Qed.

Lemma float_laws : JSNumLaws float_num.
Proof.
  constructor.
  - reflexivity.
  - intros a b. simpl. rewrite eqb_spec, ltb_spec. unfold SFeqb, SFltb.
    destruct (SFcompare (Prim2SF a) (Prim2SF b)) as [[| |]|] eqn:E;
      try discriminate.
    intros _. rewrite (SFcompare_eq_sym _ _ E). reflexivity.
  - intros x s r m. simpl. change (float_of_Z 0) with 0%float.
    rewrite eqb_spec, !ltb_spec, add_spec, mul_spec.
    intros Hs. apply SFeqb_zero in Hs. destruct Hs as [b ->].
    unfold SFltb.
    destruct (SFcompare_zero_term (Prim2SF x) (Prim2SF r) (Prim2SF m) b)
      as [[-> _]|[-> _]]; auto.
  - intros x s r m. simpl. change (float_of_Z 0) with 0%float.
    rewrite eqb_spec, !ltb_spec, add_spec, mul_spec.
    intros Hs. apply SFeqb_zero in Hs. destruct Hs as [b ->].
    unfold SFltb.
    destruct (SFcompare_zero_term (Prim2SF x) (Prim2SF r) (Prim2SF m) b)
      as [[_ ->]|[_ ->]]; auto.
Qed.

(** ** Runs *)

Lemma reachable_after (p : list (command float)) (t : session float) :
  run 10 p fresh = Some t -> reachable (after p).
Proof.
  intros E. unfold after. rewrite E.
  exact (reachable_run _ _ (reach_new _ _) E).
Qed.

(** The trace of [forward(2 * 800)] to the right from the centre of a
    canvas of 800 by 600, on doubles. *)
Example forward_twice_800 :
  map place (_states (after [Setheading 90; Forward 1600]))
  = [(0, 0, 0, true); (0, 0, 90, true);
     (400, 0, 90, true); (-400, 0, 90, false);
     (400, 0, 90, true); (-400, 0, 90, false);
     (0, 0, 90, true)].
Proof. vm_compute. reflexivity. Qed.

(** A heading that is [NaN] differs from itself: setting it twice
    appends twice. *)
Example nan_heading_appends_again :
  map place (_states (after [Setheading nan; Setheading nan]))
  = [(0, 0, 0, true); (0, 0, nan, true); (0, 0, nan, true)].
Proof. vm_compute. reflexivity. Qed.


(** The corner of a canvas of 200 by 200: from [(90, 90)] heading 45
    degrees, [forward(50)] wraps on X and then on Y. *)
Example corner_wrap :
  option_map (fun t => map place (_states t))
    (run 10 [Tp 90 90; Setheading 45; Forward 50] (constructor 200 200))
  = Some [(0, 0, 0, true); (90, 90, 0, false); (90, 90, 45, true);
          (100, 100, 45, true); (-100, 100, 45, false);
          (-100, 100, 45, true); (-100, -100, 45, false);
          (-74.6447, -74.6447, 45, true)].
Proof. vm_compute. reflexivity. Qed.

(** ** The arm taken from outside the canvas *)

(** From [(1000, 0)], to the right of a canvas of 800 by 600, a move
    straight up has a sine of zero and still takes the arm of the right
    edge: the distance to the edge is infinite, and so is the ordinate
    stored. *)
Example strayed_goto :
  crossing_at (bearing 1000 10 strayed) (start 1000 10 strayed) = CrossMaxX
  /\ (Math_sin (bearing 1000 10 strayed) =? 0) = true
  /\ option_map (fun t => map place (_states t)) (goto 5 1000 10 strayed)
     = Some [(0, 0, 0, true); (1000, 0, 0, false);
             (400, infinity, 0, true); (-400, infinity, 0, false)].
Proof. vm_compute. auto. Qed.

(** Down the right edge of a canvas of 800 by 600, from [(400, 200)] to
    [(400, -300)]: the bearing is [Math.PI], whose sine on doubles is
    1.2e-16 and not zero, the abscissa tested lies beyond [maxX], and the
    move continues from the left edge. *)
Example edge_parallel_wraps :
  (Math_sin (bearing 400 (-300) (after [Tp 400 200])) =? 0) = false
  /\ crossing_at (bearing 400 (-300) (after [Tp 400 200]))
       (start 400 (-300) (after [Tp 400 200])) = CrossMaxX
  /\ map place (_states (after [Tp 400 200; Goto 400 (-300)]))
     = [(0, 0, 0, true); (400, 200, 0, false); (400, 200, 0, true);
        (-400, 200, 0, false); (-400, -300, 0, true)].
Proof. vm_compute. auto. Qed.


(** ** Moves that append nothing *)

(** C4, the claim as stated, fails: with wrap off, [goto(0, 0)] from the
    origin appends no snapshot. *)
Lemma goto_origin_appends_nothing :
  ~ appends_one_at_target (Goto 0 0) unwrapped.
Proof.
  intros (fuel & t' & x & y & snap & T & E & Hl & _).
  simpl in E. unfold goto in E.
  rewrite (moveTo_zero_distance (L := float_laws)) in E
    by (vm_compute; reflexivity).
  injection E as <-.
  apply (f_equal (@List.length _)) in Hl. rewrite length_app in Hl.
  simpl in Hl. lia.
Qed.

(** Nor does a move that is too short to change the rounded position. *)
Example short_goto_appends_nothing :
  option_map (fun t => map place (_states t)) (goto 5 0x1p-15 0 unwrapped)
  = Some (map place (_states unwrapped)).
Proof. vm_compute. reflexivity. Qed.

(** ** The theorems at work on doubles *)


Lemma zero_distance_is_noop_witness :
  _moveTo 3 0 0 fresh = Some fresh
  /\ trace_loop 0 (bearing 0 0 fresh) (start 0 0 fresh) = Some fresh.
Proof.
  apply (zero_distance_is_noop (L := float_laws)). vm_compute. reflexivity.
Defined.

Lemma done_drains_log_witness :
  _states played = []
  /\ forall fuel',
       play fuel' (_states played) None = Some []
       /\ done fuel' played = Some played.
Proof.
  apply (@done_drains_log float float_num 10 drawn played).
  vm_compute. reflexivity.
Defined.

Lemma goto_keeps_heading_witness :
  heading (after [Goto 500 0]) = heading fresh
  /\ (exists app, _states (after [Goto 500 0]) = _states fresh ++ app
                  /\ Forall (fun s : State.t float => State.angle s = heading fresh) app)
  /\ goto 10 500 0 fresh
     = trace_loop 10 (bearing 500 0 fresh) (start 500 0 fresh)
  /\ forall a, option_map (@position float) (goto 10 500 0 (facing a fresh))
               = Some (position (after [Goto 500 0])).
Proof.
  apply (@goto_keeps_heading float float_num 10 500 0 fresh).
  vm_compute. reflexivity.
Defined.


Lemma no_wrap_move_witness :
  exists t', exec 3 (Goto 3 4) unwrapped = Some t'
    /\ if (_distanceTo 3 4 unwrapped >? lit 0)%js then
         _state t'
         = State.set_y (JS.toFixed4 (snd (end_point 3 4 unwrapped)))
             (State.set_x (JS.toFixed4 (fst (end_point 3 4 unwrapped)))
                (_state unwrapped))
         /\ position t' = (JS.toFixed4 (fst (end_point 3 4 unwrapped)),
                           JS.toFixed4 (snd (end_point 3 4 unwrapped)))
         /\ _states t'
            = _states unwrapped ++
              match last_of (_states unwrapped) with
              | None => [_state t']
              | Some e => if State.differs e (_state t') then [_state t'] else []
              end
       else t' = unwrapped.
Proof.
  apply (@no_wrap_move float float_num float_laws 2 (Goto 3 4) unwrapped 3 4);
    reflexivity.
Defined.

(** ** Twice the width of the canvas, on doubles *)















(** On doubles the move to [(3, 4)] ends at [(3, 4)]. *)
Example goto_3_4 :
  option_map (fun t => map place (_states t)) (goto 3 3 4 unwrapped)
  = Some [(0, 0, 0, true); (0, 0, 0, true); (3, 4, 0, true)].
Proof. vm_compute. reflexivity. Qed.

End FloatProps.

(** * The model in exact arithmetic *)

Module RealProps.
Import Turtle Spec TurtleProps RealModel RealExamples.
#[local] Existing Instance real_num.
Local Open Scope R_scope.

Lemma xlt_true (a b : R) : a < b -> xlt (Fin a) (Fin b) = true.
Proof. intros H. simpl. destruct (Rlt_dec a b); [reflexivity|contradiction]. Qed.

Lemma xlt_false (a b : R) : ~ a < b -> xlt (Fin a) (Fin b) = false.
Proof. intros H. simpl. destruct (Rlt_dec a b); [contradiction|reflexivity]. Qed.

Lemma xseq_true (a : R) : xseq (Fin a) (Fin a) = true.
Proof. simpl. destruct (Req_dec_T a a); [reflexivity|contradiction]. Qed.

Lemma xseq_false (a b : R) : a <> b -> xseq (Fin a) (Fin b) = false.
Proof. intros H. simpl. destruct (Req_dec_T a b); [contradiction|reflexivity]. Qed.

Lemma xseq_eq (a b : xreal) : xseq a b = true -> exists r, a = Fin r /\ b = Fin r.
Proof.
  destruct a as [r|], b as [q|]; simpl; try discriminate.
  destruct (Req_dec_T r q); [|discriminate]. subst q. intros _. exists r. auto.
Qed.

Lemma xdiv_Fin (r q : R) : q <> 0 -> xdiv (Fin r) (Fin q) = Fin (r / q).
Proof. intros H. simpl. destruct (Req_dec_T q 0); [contradiction|reflexivity]. Qed.

Lemma real_laws : JSNumLaws real_num.
Proof.
  constructor.
  - apply xlt_false. lra.
  - intros a b H. apply xseq_eq in H. destruct H as (r & -> & ->).
    apply xlt_false. lra.
  - intros x s r m Hs. apply xseq_eq in Hs. destruct Hs as (z & -> & Hz).
    injection Hz as <-.
    destruct x as [x|], r as [r|], m as [m|]; simpl; try reflexivity.
    destruct (Rlt_dec m x); [discriminate|]. intros _.
    destruct (Rlt_dec m (x + 0 * r)); [lra|reflexivity].
  - intros x s r m Hs. apply xseq_eq in Hs. destruct Hs as (z & -> & Hz).
    injection Hz as <-.
    destruct x as [x|], r as [r|], m as [m|]; simpl; try reflexivity.
    destruct (Rlt_dec x m); [discriminate|]. intros _.
    destruct (Rlt_dec (x + 0 * r) m); [lra|reflexivity].
Qed.

(** A multiple of [10^-4] is its own rounding. *)
Lemma round4_grid (n : Z) : round4 (IZR n / 10000) = IZR n / 10000.
Proof.
  unfold round4. destruct (Rlt_dec (IZR n / 10000) 0) as [H|H].
  - replace (- (IZR n / 10000) * 10000 + / 2) with (IZR (- n) + / 2)
      by (rewrite opp_IZR; field).
    rewrite (Zfloor_eq (- n)) by lra.
    rewrite opp_IZR. field.
  - replace (IZR n / 10000 * 10000 + / 2) with (IZR n + / 2) by field.
    rewrite (Zfloor_eq n) by lra. reflexivity.
Qed.

Lemma round4_half (n : Z) : round4 (IZR n / 2) = IZR n / 2.
Proof.
  replace (IZR n / 2) with (IZR (5000 * n) / 10000)
    by (rewrite mult_IZR; field).
  apply round4_grid.
Qed.

Lemma round4_half_opp (n : Z) : round4 (- IZR n / 2) = - IZR n / 2.
Proof. rewrite <- opp_IZR. apply round4_half. Qed.

Lemma round4_0 : round4 0 = 0.
Proof.
  replace 0 with (IZR 0 / 10000) at 1 by (unfold Rdiv; apply Rmult_0_l).
  rewrite round4_grid. unfold Rdiv; apply Rmult_0_l.
Qed.

Lemma atan2_right (y : R) : 0 < y -> atan2 y 0 = PI / 2.
Proof.
  intros H. unfold atan2.
  destruct (Rlt_dec 0 0); [lra|]. destruct (Rlt_dec 0 y); [reflexivity|lra].
Qed.

Lemma hypot_right (a : R) : 0 <= a -> hypot a 0 = a.
Proof.
  intros H. unfold hypot.
  replace (a * a + 0 * 0) with (a * a) by ring. apply sqrt_square, H.
Qed.

Lemma xseq_Fin_x (e : xreal) (q : R) :
  (e = Fin q \/ xseq e (Fin q) = true) -> e = Fin q.
Proof.
  intros [H|H]; [exact H|]. apply xseq_eq in H.
  destruct H as (r & -> & Hq). symmetry. exact Hq.
Qed.

Lemma differs_x (a b : State.t xreal) :
  (State.x a === State.x b)%js = false -> State.differs a b = true.
Proof. intros H. unfold State.differs. rewrite H. reflexivity. Qed.

Lemma last_of_app2 (l : list (State.t xreal)) (a b : State.t xreal) :
  last_of (l ++ [a; b]) = Some b.
Proof.
  change (l ++ [a; b]) with (l ++ [a] ++ [b]).
  rewrite app_assoc. apply last_of_app.
Qed.

Section RightEdge.
Variables (w : positive) (h : BinNums.N).
Variables (rd : list (render_op xreal)).
Variables (a wd : xreal) (pd vis rdw : bool) (col bg : string)
          (sp : jsval xreal) (cl ins : bool).

Let W : R := IZR (Z.pos w).

(** The state of a turtle on the X axis, wrap on. *)
Let at_x (x : R) (anim : bool) : State.t xreal :=
  State.mk (Fin x) (Fin 0) a pd wd vis rdw true col bg sp cl anim ins.

Let sess (l : list (State.t xreal)) (x : R) (anim : bool) : session xreal :=
  mkSession l (at_x x anim) (Npos w) h rd.

Lemma W_pos : 0 < W.
Proof. apply IZR_lt. lia. Qed.

Lemma bounds_real (l : list (State.t xreal)) (x : R) (anim : bool) :
  maxX (sess l x anim) = Fin (W / 2) /\ minX (sess l x anim) = Fin (- W / 2)
  /\ maxY (sess l x anim) = Fin (IZR (Z.of_N h) / 2)
  /\ minY (sess l x anim) = Fin (- IZR (Z.of_N h) / 2).
Proof.
  unfold maxX, minX, maxY, minY, lit. cbn.
  destruct (Req_dec_T 2 0); [lra|]. auto.
Qed.

Lemma differs_at_x (p q : R) (b c : bool) :
  p <> q -> State.differs (at_x p b) (at_x q c) = true.
Proof.
  intros H. unfold State.differs. cbn [State.x at_x].
  change (Fin p === Fin q)%js with (xseq (Fin p) (Fin q)).
  rewrite (xseq_false H). reflexivity.
Qed.

Lemma setPos_sess (l : list (State.t xreal)) (x x' : R) (anim : bool) :
  round4 x' = x' ->
  (forall e, last_of l = Some e -> State.differs e (at_x x' anim) = true) ->
  _setPos (Fin x') (Fin 0) (sess l x anim) = sess (l ++ [at_x x' anim]) x' anim.
Proof.
  intros Hr Hl. unfold _setPos.
  change (assign (State.set_y (toFixed4 (Fin 0)))
            (assign (State.set_x (toFixed4 (Fin x'))) (sess l x anim)))
    with (mkSession l
            (State.mk (Fin (round4 x')) (Fin (round4 0)) a pd wd vis rdw true
                      col bg sp cl anim ins) (Npos w) h rd).
  rewrite Hr, round4_0. fold (at_x x' anim). fold (sess l x' anim).
  unfold _pushState, _stateHasChanged.
  change (_states (sess l x' anim)) with l.
  change (_state (sess l x' anim)) with (at_x x' anim).
  destruct (last_of l) as [e|] eqn:E; [|reflexivity].
  unfold isDifferent. rewrite (Hl e eq_refl). reflexivity.
Qed.

Lemma tp_sess (l : list (State.t xreal)) (x x' : R) :
  round4 x' = x' ->
  (forall e, last_of l = Some e -> State.differs e (at_x x' false) = true) ->
  tp (Fin x') (Fin 0) (sess l x true) = sess (l ++ [at_x x' false]) x' true.
Proof.
  intros Hr Hl. unfold tp.
  change (assign (State.set_animateMovement false) (sess l x true))
    with (sess l x false).
  rewrite (setPos_sess l x false Hr Hl). reflexivity.
Qed.

(** One iteration that leaves through the right edge. *)
Lemma cross_right (l : list (State.t xreal)) (x r : R) :
  x < W / 2 -> W / 2 < x + r ->
  (forall e, last_of l = Some e -> State.differs e (at_x (W / 2) true) = true) ->
  trace_step (Fin (PI / 2)) (mkTracer (Fin x) (Fin 0) (Fin r) (sess l x true))
  = mkTracer (Fin (- W / 2)) (Fin 0) (Fin (r - (W / 2 - x)))
      (sess (l ++ [at_x (W / 2) true; at_x (- W / 2) false]) (- W / 2) true).
Proof.
  intros Hx Hr Hl. pose proof W_pos as HW.
  unfold trace_step.
  cbn [cur_x cur_y remainingDistance self].
  destruct (bounds_real l x true) as (E1 & E2 & E3 & E4).
  unfold crossing_of. rewrite E1, E2, E3, E4.
  change (Math_sin (Fin (PI / 2))) with (Fin (sin (PI / 2))).
  change (Math_cos (Fin (PI / 2))) with (Fin (cos (PI / 2))).
  rewrite sin_PI2, cos_PI2.
  change (State.wrap (_state (sess l x true))) with true. cbv iota.
  change (Fin x + Fin 1 * Fin r)%js with (Fin (x + 1 * r)).
  change (lt (Fin (W / 2)) (Fin (x + 1 * r)))
    with (xlt (Fin (W / 2)) (Fin (x + 1 * r))).
  rewrite xlt_true by lra.
  unfold xWrap. cbn [cur_x cur_y remainingDistance self].
  change (Fin (W / 2) - Fin x)%js with (Fin (W / 2 - x)).
  change (Fin (W / 2 - x) / Fin 1)%js with (xdiv (Fin (W / 2 - x)) (Fin 1)).
  rewrite xdiv_Fin by lra.
  change (Math_abs (Fin ((W / 2 - x) / 1))) with (Fin (Rabs ((W / 2 - x) / 1))).
  replace (Rabs ((W / 2 - x) / 1)) with (W / 2 - x)
    by (rewrite Rabs_right; lra).
  change (Fin 0 * Fin (W / 2 - x) + Fin 0)%js with (Fin (0 * (W / 2 - x) + 0)).
  replace (0 * (W / 2 - x) + 0) with 0 by ring.
  change (Fin r - Fin (W / 2 - x))%js with (Fin (r - (W / 2 - x))).
  f_equal.
  assert (R1 : round4 (W / 2) = W / 2) by apply round4_half.
  assert (R2 : round4 (- W / 2) = - W / 2) by apply round4_half_opp.
  rewrite (setPos_sess l x true R1 Hl).
  rewrite (@tp_sess _ (W / 2) (- W / 2) R2).
  - rewrite <- app_assoc. reflexivity.
  - intros e. rewrite last_of_app. intros E. injection E as <-.
    apply differs_at_x. lra.
Qed.

(** The iteration that ends the move at the centre. *)
Lemma arrive (l : list (State.t xreal)) (x r : R) :
  x + r = 0 ->
  (forall e, last_of l = Some e -> State.differs e (at_x 0 true) = true) ->
  trace_step (Fin (PI / 2)) (mkTracer (Fin x) (Fin 0) (Fin r) (sess l x true))
  = mkTracer (Fin x) (Fin 0) (Fin 0) (sess (l ++ [at_x 0 true]) 0 true).
Proof.
  intros Hx Hl. pose proof W_pos as HW.
  assert (Hh : 0 <= IZR (Z.of_N h)) by (apply IZR_le; lia).
  unfold trace_step.
  cbn [cur_x cur_y remainingDistance self].
  destruct (bounds_real l x true) as (E1 & E2 & E3 & E4).
  unfold crossing_of. rewrite E1, E2, E3, E4.
  change (Math_sin (Fin (PI / 2))) with (Fin (sin (PI / 2))).
  change (Math_cos (Fin (PI / 2))) with (Fin (cos (PI / 2))).
  rewrite sin_PI2, cos_PI2.
  change (State.wrap (_state (sess l x true))) with true. cbv iota.
  change (Fin x + Fin 1 * Fin r)%js with (Fin (x + 1 * r)).
  change (Fin 0 + Fin 0 * Fin r)%js with (Fin (0 + 0 * r)).
  replace (x + 1 * r) with 0 by lra. replace (0 + 0 * r) with 0 by ring.
  change (@lt xreal real_num) with xlt.
  rewrite !xlt_false by lra.
  unfold noWrap. cbn [cur_x cur_y remainingDistance self].
  f_equal. apply setPos_sess; [apply round4_0|exact Hl].
Qed.

End RightEdge.

Lemma quarter_turn : degToRad (lit 90) = Fin (PI / 2).
Proof.
  unfold degToRad, lit. cbn. destruct (Req_dec_T 180 0); [lra|].
  unfold lift2. f_equal. lra.
Qed.

(** The same move in exact arithmetic, where the sine of the direction
    is 1 and its cosine 0: on a canvas that is not empty, with wrap on,
    from the centre and heading 90 degrees, [forward] of twice the canvas
    width returns after three iterations and appends five snapshots:
    twice an animated one at [maxX] followed by a teleport at [minX], and
    a last one at the abscissa of the start; the current state is then
    what it was. *)
Theorem forward_twice_width (t : session xreal) (w : positive) :
  reachable t ->
  canvas_width t = Npos w ->
  canvas_height t <> 0%N ->
  position t = (lit 0, lit 0) ->
  heading t = lit 90 ->
  State.wrap (_state t) = true ->
  let s := _state t in
  let edge := State.set_x (maxX t) s in
  let back := State.set_animateMovement false (State.set_x (minX t) s) in
  forall fuel, (3 <= fuel)%nat ->
    exists t',
      forward fuel (lit 2 * of_Z (Z.of_N (canvas_width t)))%js t = Some t'
      /\ _states t' = _states t ++ [edge; back; edge; back; s]
      /\ _state t' = s
      /\ State.animateMovement edge = true
      /\ State.animateMovement back = false.
Proof.
  intros R Hw _ Hp Hh Hwr. pose proof (settled_reachable R) as [Ha Ht].
  destruct t as [l s cw ch rd].
  destruct s as [sx sy sa pd wd vis rdw wr col bg sp cl anim ins].
  unfold position, heading, tail_in_place in *.
  cbn [_state _states canvas_width State.x State.y State.angle State.wrap
       State.animateMovement] in *.
  injection Hp as -> ->. subst sa wr anim cw.
  intros fuel Hf.
  destruct fuel as [|[|[|f]]]; try lia. clear Hf.
  unfold forward, _moveTo, _distanceTarget, _distanceTo.
  cbn [fst snd _state State.x State.y State.angle].
  rewrite quarter_turn.
  set (W := IZR (Z.pos w)).
  assert (HW : 0 < W) by (apply IZR_lt; lia).
  assert (A1 : (Fin 0 + Math_sin (Fin (PI / 2))
                        * (lit 2 * of_Z (Z.of_N (N.pos w))) - Fin 0)%js
               = Fin (2 * W)).
  { change (Fin (0 + sin (PI / 2) * (2 * W) - 0) = Fin (2 * W)).
    rewrite sin_PI2. f_equal. ring. }
  assert (A2 : (Fin 0 + Math_cos (Fin (PI / 2))
                        * (lit 2 * of_Z (Z.of_N (N.pos w))) - Fin 0)%js
               = Fin 0).
  { change (Fin (0 + cos (PI / 2) * (2 * W) - 0) = Fin 0).
    rewrite cos_PI2. f_equal. ring. }
  rewrite A1, A2.
  change (Math_atan2 (Fin (2 * W)) (Fin 0)) with (Fin (atan2 (2 * W) 0)).
  change (Math_hypot (Fin (2 * W)) (Fin 0)) with (Fin (hypot (2 * W) 0)).
  rewrite atan2_right, hypot_right by lra.
  assert (B : maxX (mkSession l
                (State.mk (Fin 0) (Fin 0) (lit 90) pd wd vis rdw true col bg sp
                          cl true ins) (N.pos w) ch rd) = Fin (W / 2)
              /\ minX (mkSession l
                (State.mk (Fin 0) (Fin 0) (lit 90) pd wd vis rdw true col bg sp
                          cl true ins) (N.pos w) ch rd) = Fin (- W / 2)).
  { destruct (bounds_real w ch rd (lit 90) wd pd vis rdw col bg sp cl ins l 0 true)
      as (E1 & E2 & _). split; assumption. }
  destruct B as [-> ->].
  assert (Hl : forall e, last_of l = Some e -> State.x e = Fin 0)
    by (intros e He; apply xseq_Fin_x, Ht, He).
  eexists. split; [|split; [|split; [|split]]].
  - rewrite trace_loop_step by (apply xlt_true; lra).
    rewrite (cross_right w ch rd (lit 90) wd pd vis rdw col bg sp cl ins l
               (x := 0) (r := 2 * W)); try (fold W; lra).
    2: { intros e He. apply differs_x. rewrite (Hl e He).
         apply xseq_false. fold W. lra. }
    rewrite trace_loop_step by (apply xlt_true; fold W; lra).
    rewrite (cross_right w ch rd (lit 90) wd pd vis rdw col bg sp cl ins _
               (x := - IZR (Z.pos w) / 2)); try (fold W; lra).
    2: { intros e. rewrite last_of_app2.
         intros He. injection He as <-. apply differs_x.
         apply xseq_false. fold W. lra. }
    rewrite trace_loop_step by (apply xlt_true; fold W; lra).
    rewrite (arrive w ch rd (lit 90) wd pd vis rdw col bg sp cl ins _
               (x := - IZR (Z.pos w) / 2)); try (fold W; lra).
    2: { intros e. rewrite last_of_app2.
         intros He. injection He as <-. apply differs_x.
         apply xseq_false. fold W. lra. }
    rewrite trace_loop_stop by (apply xlt_false; lra).
    reflexivity.
  - cbn [self _states]. rewrite <- !app_assoc. reflexivity.
  - reflexivity.
  - reflexivity.
  - reflexivity.
Qed.

Lemma forward_twice_width_witness :
  exists t',
    forward 3 (lit 2 * of_Z (Z.of_N (canvas_width facing_right)))%js facing_right
    = Some t'
    /\ _states t'
       = _states facing_right ++
         [State.set_x (maxX facing_right) (_state facing_right);
          State.set_animateMovement false
            (State.set_x (minX facing_right) (_state facing_right));
          State.set_x (maxX facing_right) (_state facing_right);
          State.set_animateMovement false
            (State.set_x (minX facing_right) (_state facing_right));
          _state facing_right]
    /\ _state t' = _state facing_right
    /\ State.animateMovement
         (State.set_x (maxX facing_right) (_state facing_right)) = true
    /\ State.animateMovement
         (State.set_animateMovement false
            (State.set_x (minX facing_right) (_state facing_right))) = false.
Proof.
  apply (@forward_twice_width facing_right 800).
  - apply (@reach_exec _ _ 0 (Setheading (lit 90)) (constructor 800 600));
      [apply reach_new | reflexivity].
  - unfold facing_right, setheading.
    destruct (canvas_pushState
                (assign (State.set_angle (lit 90)) (constructor 800 600)))
      as [-> _]. reflexivity.
  - unfold facing_right, setheading.
    destruct (canvas_pushState
                (assign (State.set_angle (lit 90)) (constructor 800 600)))
      as [_ ->]. discriminate.
  - unfold facing_right, setheading, position.
    rewrite state_pushState. reflexivity.
  - unfold facing_right, setheading, heading.
    rewrite state_pushState. reflexivity.
  - unfold facing_right, setheading.
    rewrite state_pushState. reflexivity.
  - lia.
Defined.

(** ** The end point of a trace in exact arithmetic *)

Lemma hypot_scaled (dx dy : R) :
  dy <> 0 -> hypot dx dy = Rabs dy * sqrt (1 + (dx / dy)²).
Proof.
  intros H. unfold hypot.
  replace (dx * dx + dy * dy) with (dy² * (1 + (dx / dy)²))
    by (unfold Rsqr; field; exact H).
  rewrite sqrt_mult_alt by apply Rle_0_sqr.
  rewrite sqrt_Rsqr_abs. reflexivity.
Qed.

Lemma root_pos (u : R) : 0 < sqrt (1 + u²).
Proof. apply sqrt_lt_R0. pose proof (Rle_0_sqr u). lra. Qed.

(** The distance along the bearing leads to the target. *)
Lemma polar (dx dy : R) :
  sin (atan2 dx dy) * hypot dx dy = dx /\ cos (atan2 dx dy) * hypot dx dy = dy.
Proof.
  unfold atan2.
  destruct (Rlt_dec 0 dy) as [Hp|Hp]; [|destruct (Rlt_dec dy 0) as [Hn|Hn]].
  - rewrite hypot_scaled, sin_atan, cos_atan, Rabs_right by lra.
    pose proof (root_pos (dx / dy)).
    split; field; lra.
  - pose proof (root_pos (dx / dy)).
    destruct (Rle_dec 0 dx).
    + rewrite neg_sin, neg_cos, hypot_scaled, sin_atan, cos_atan, Rabs_left by lra.
      split; field; lra.
    + replace (atan (dx / dy) - PI) with (atan (dx / dy) + PI - 2 * PI) by ring.
      rewrite sin_minus, cos_minus, sin_2PI, cos_2PI.
      rewrite neg_sin, neg_cos, hypot_scaled, sin_atan, cos_atan, Rabs_left by lra.
      split; field; lra.
  - assert (dy = 0) by lra. subst dy. unfold hypot.
    replace (dx * dx + 0 * 0) with (dx²) by (unfold Rsqr; ring).
    rewrite sqrt_Rsqr_abs.
    destruct (Rlt_dec 0 dx); [|destruct (Rlt_dec dx 0)].
    + rewrite sin_PI2, cos_PI2, Rabs_right by lra. split; ring.
    + rewrite sin_neg, cos_neg, sin_PI2, cos_PI2, Rabs_left by lra. split; ring.
    + assert (dx = 0) by lra. subst dx. rewrite sin_0, Rabs_R0. split; ring.
Qed.

(** In exact arithmetic the point the tracer computes is the target. *)
Lemma end_point_is_target (t : session xreal) (x y targetX targetY : R) :
  position t = (Fin x, Fin y) ->
  end_point (Fin targetX) (Fin targetY) t = (Fin targetX, Fin targetY).
Proof.
  unfold position, end_point, bearing, _distanceTo. intros H.
  injection H as -> ->. cbn.
  destruct (polar (targetX - x) (targetY - y)) as [-> ->].
  f_equal; f_equal; ring.
Qed.

(** With wrap off, in exact arithmetic, a move of positive distance ends
    at the target rounded to four decimals. *)
Lemma no_wrap_move_exact (fuel : nat) (c : command xreal) (t : session xreal)
  (x y targetX targetY : R) :
  State.wrap (_state t) = false ->
  position t = (Fin x, Fin y) ->
  target_of c t = Some (Fin targetX, Fin targetY) ->
  (_distanceTo (Fin targetX) (Fin targetY) t >? lit 0)%js = true ->
  exists t', exec (S fuel) c t = Some t'
             /\ position t' = (Fin (round4 targetX), Fin (round4 targetY)).
Proof.
  intros Hw Hp Ht Hd.
  rewrite (exec_move _ _ _ Ht), (moveTo_no_wrap (L := real_laws) _ _ _ _ Hw).
  rewrite Hd, (@end_point_is_target t x y targetX targetY Hp).
  eexists. split; [reflexivity|].
  unfold _setPos, position. rewrite state_pushState. reflexivity.
Qed.

End RealProps.

(** * Recording: what commands do to the log, the flags and the surface *)

Module RecordingProps.
Import Turtle Spec TurtleProps Observe.

Section Recording.
Context (num : Type) {N : JSNum num}.
Local Open Scope js_scope.

(** ** The log only grows *)

Lemma extends_refl (t : session num) : extends t t.
Proof. exists []. symmetry. apply app_nil_r. Qed.

Lemma extends_trans (t u v : session num) :
  extends t u -> extends u v -> extends t v.
Proof.
  intros [l1 E1] [l2 E2]. exists (l1 ++ l2). rewrite E2, E1. symmetry. apply app_assoc.
Qed.

Lemma extends_pushState (t : session num) : extends t (_pushState t).
Proof. exists (pushed t). apply states_pushState_pushed. Qed.

Lemma extends_push_assign (f : State.t num -> State.t num) (t : session num) :
  extends t (_pushState (assign f t)).
Proof. exact (extends_pushState (assign f t)). Qed.

Lemma extends_setPos (x y : num) (t : session num) : extends t (_setPos x y t).
Proof.
  unfold _setPos.
  exact (extends_pushState
           (assign (State.set_y (toFixed4 y)) (assign (State.set_x (toFixed4 x)) t))).
Qed.

Lemma extends_tp (x y : num) (t : session num) : extends t (tp x y t).
Proof.
  unfold tp.
  destruct (extends_setPos x y (assign (State.set_animateMovement false) t))
    as [l E].
  exists l. exact E.
Qed.

Lemma extends_trace_step (angle : num) (k : tracer num) :
  extends (self k) (self (trace_step angle k)).
Proof.
  unfold trace_step.
  destruct (crossing_of _ _ _); unfold xWrap, yWrap, noWrap; cbn [self].
  1-4: (eapply extends_trans; [apply extends_setPos | apply extends_tp]).
  apply extends_setPos.
Qed.

Lemma extends_trace_loop (fuel : nat) (angle : num) (k : tracer num)
  (t' : session num) :
  trace_loop fuel angle k = Some t' -> extends (self k) t'.
Proof.
  revert k. induction fuel as [|fuel IH]; intros k; simpl;
    destruct (remainingDistance k >? lit 0); try discriminate;
    try (intros E; injection E as <-; apply extends_refl).
  intros E. eapply extends_trans; [apply extends_trace_step|].
  apply IH, E.
Qed.

(** X1.  Recording is append-only: whatever a command other than [reset]
    and [done] leaves in the log starts with the log as it was. *)
Theorem recording_appends (fuel : nat) (c : command num) (t t' : session num) :
  recording c = true -> exec fuel c t = Some t' ->
  exists app, _states t' = _states t ++ app.
Proof.
  intros Hc.
  assert (M : forall x y, _moveTo fuel x y t = Some t' -> extends t t')
    by (intros x y; unfold _moveTo; apply extends_trace_loop).
  destruct c; try discriminate; cbn [exec];
    try (intros E; injection E as <-); try apply M.
  - unfold clear.
    destruct (extends_push_assign (State.set_clear true) t) as [l E].
    exists l. exact E.
  - apply extends_push_assign.
  - apply extends_push_assign.
  - apply extends_push_assign.
  - apply extends_push_assign.
  - apply extends_push_assign.
  - apply extends_push_assign.
  - apply extends_push_assign.
  - apply extends_push_assign.
  - apply extends_push_assign.
  - unfold home.
    destruct (extends_push_assign (State.set_angle (lit 0))
                (assign (State.set_instant true) t)) as [l1 E1].
    destruct (extends_tp (lit 0) (lit 0)
                (setheading (lit 0) (assign (State.set_instant true) t)))
      as [l2 E2].
    exists (l1 ++ l2). cbn [assign _states with_state]. rewrite E2.
    unfold setheading. rewrite E1. symmetry. apply app_assoc.
  - apply extends_tp.
  - apply extends_push_assign.
  - apply extends_push_assign.
  - apply extends_push_assign.
  - apply extends_push_assign.
  - apply extends_push_assign.
Qed.

(** ** Commands make no call on the surface *)

Lemma untouched_refl (t : session num) : untouched t t.
Proof. repeat split. Qed.

Lemma untouched_trans (t u v : session num) :
  untouched t u -> untouched u v -> untouched t v.
Proof.
  intros (A1 & A2 & A3) (B1 & B2 & B3).
  repeat split; congruence.
Qed.

Lemma untouched_push_assign (f : State.t num -> State.t num) (t : session num) :
  untouched t (_pushState (assign f t)).
Proof.
  unfold untouched. rewrite rendered_pushState.
  destruct (canvas_pushState (assign f t)) as [-> ->]. repeat split.
Qed.

Lemma untouched_setPos (x y : num) (t : session num) :
  untouched t (_setPos x y t).
Proof.
  unfold _setPos.
  exact (untouched_push_assign
           (fun s => State.set_y (toFixed4 y) (State.set_x (toFixed4 x) s)) t).
Qed.

Lemma untouched_tp (x y : num) (t : session num) : untouched t (tp x y t).
Proof.
  unfold tp.
  destruct (untouched_setPos x y (assign (State.set_animateMovement false) t))
    as (A & B & C).
  repeat split; assumption.
Qed.

Lemma untouched_trace_step (angle : num) (k : tracer num) :
  untouched (self k) (self (trace_step angle k)).
Proof.
  unfold trace_step.
  destruct (crossing_of _ _ _); unfold xWrap, yWrap, noWrap; cbn [self].
  1-4: (eapply untouched_trans; [apply untouched_setPos | apply untouched_tp]).
  apply untouched_setPos.
Qed.

Lemma untouched_trace_loop (fuel : nat) (angle : num) (k : tracer num)
  (t' : session num) :
  trace_loop fuel angle k = Some t' -> untouched (self k) t'.
Proof.
  revert k. induction fuel as [|fuel IH]; intros k; simpl;
    destruct (remainingDistance k >? lit 0); try discriminate;
    try (intros E; injection E as <-; apply untouched_refl).
  intros E. eapply untouched_trans; [apply untouched_trace_step|].
  apply IH, E.
Qed.

(** X2.  Commands only record: no command other than [reset] and [done]
    makes a call on the rendering surface, and none of them changes the
    size of the canvas that the tracer reads. *)
Theorem recording_is_silent (fuel : nat) (c : command num)
  (t t' : session num) :
  recording c = true -> exec fuel c t = Some t' ->
  rendered t' = rendered t
  /\ canvas_width t' = canvas_width t
  /\ canvas_height t' = canvas_height t.
Proof.
  intros Hc.
  assert (M : forall x y, _moveTo fuel x y t = Some t' -> untouched t t')
    by (intros x y; unfold _moveTo; apply untouched_trace_loop).
  destruct c; try discriminate; cbn [exec];
    try (intros E; injection E as <-); try apply M;
    try apply untouched_push_assign; try apply untouched_tp.
  unfold home.
  destruct (untouched_push_assign (State.set_angle (lit 0))
              (assign (State.set_instant true) t)) as (A1 & B1 & C1).
  destruct (untouched_tp (lit 0) (lit 0)
              (setheading (lit 0) (assign (State.set_instant true) t)))
    as (A2 & B2 & C2).
  unfold setheading in *.
  cbn [assign rendered canvas_width canvas_height with_state].
  rewrite A2, B2, C2. repeat split; assumption.
Qed.

(** ** The one-shot flags *)

Lemma state_setPos (x y : num) (t : session num) :
  _state (_setPos x y t)
  = State.set_y (toFixed4 y) (State.set_x (toFixed4 x) (_state t)).
Proof. unfold _setPos. rewrite state_pushState. reflexivity. Qed.

Lemma state_tp (x y : num) (t : session num) :
  _state (tp x y t)
  = State.set_animateMovement true
      (State.set_y (toFixed4 y)
         (State.set_x (toFixed4 x)
            (State.set_animateMovement false (_state t)))).
Proof.
  unfold tp. cbn [assign _state with_state]. rewrite state_setPos. reflexivity.
Qed.

Lemma flags_down_trace_step (angle : num) (k : tracer num) :
  flags_down (_state (self k)) -> flags_down (_state (self (trace_step angle k))).
Proof.
  intros (A & B & C). unfold trace_step.
  destruct (crossing_of _ _ _); unfold xWrap, yWrap, noWrap; cbn [self];
    rewrite ?state_tp, ?state_setPos; repeat split; assumption.
Qed.

Lemma flags_down_trace_loop (fuel : nat) (angle : num) (k : tracer num)
  (t' : session num) :
  flags_down (_state (self k)) -> trace_loop fuel angle k = Some t' ->
  flags_down (_state t').
Proof.
  revert k. induction fuel as [|fuel IH]; intros k Hk; simpl;
    destruct (remainingDistance k >? lit 0); try discriminate;
    try (intros E; injection E as <-; exact Hk).
  apply IH, flags_down_trace_step, Hk.
Qed.

Lemma flags_down_exec (fuel : nat) (c : command num) (t t' : session num) :
  flags_down (_state t) -> exec fuel c t = Some t' -> flags_down (_state t').
Proof.
  intros H.
  assert (P : forall f : State.t num -> State.t num,
             (forall s, flags_down s -> flags_down (f s)) ->
             flags_down (_state (_pushState (assign f t))))
    by (intros f Hf; rewrite state_pushState; apply Hf, H).
  assert (M : forall x y, _moveTo fuel x y t = Some t' -> flags_down (_state t'))
    by (intros x y; unfold _moveTo; apply flags_down_trace_loop; exact H).
  destruct c; cbn [exec]; try (intros E; injection E as <-); try apply M.
  - unfold clear. cbn [assign _state with_state]. rewrite state_pushState.
    destruct H as (A & B & C). repeat split; assumption.
  - unfold reset, clear. cbn [assign _state with_state].
    rewrite state_pushState. repeat split.
  - apply P. intros s Hs. exact Hs.
  - apply P. intros s Hs. exact Hs.
  - apply P. intros s Hs. exact Hs.
  - apply P. intros s Hs. exact Hs.
  - apply P. intros s Hs. exact Hs.
  - apply P. intros s Hs. exact Hs.
  - apply P. intros s Hs. exact Hs.
  - apply P. intros s Hs. exact Hs.
  - apply P. intros s Hs. exact Hs.
  - unfold home. cbn [assign _state with_state]. rewrite state_tp.
    unfold setheading. rewrite state_pushState.
    destruct H as (A & B & C). repeat split; assumption.
  - rewrite state_tp. destruct H as (A & B & C). repeat split; assumption.
  - apply P. intros s Hs. exact Hs.
  - apply P. intros s Hs. exact Hs.
  - apply P. intros s Hs. exact Hs.
  - apply P. intros s Hs. exact Hs.
  - apply P. intros s Hs. exact Hs.
  - intros E. unfold done in E.
    destruct (play fuel (_states t) None); [|discriminate].
    injection E as <-. exact H.
Qed.

(** X3.  The one-shot flags never leak: in every session a client can
    reach, the current state has [clear] and [instant] false and
    [animateMovement] true, whatever [clear], [home], [tp] and the wraps
    of a move set them to on the way. *)
Theorem one_shot_flags_reset (t : session num) :
  reachable t ->
  State.clear (_state t) = false
  /\ State.instant (_state t) = false
  /\ State.animateMovement (_state t) = true.
Proof.
  induction 1 as [w h | fuel c t t' R IH E].
  - repeat split.
  - eapply flags_down_exec; eassumption.
Qed.

(** ** Moves change the position only *)

Lemma moved_from_refl (s : State.t num) : moved_from s s.
Proof. destruct s. reflexivity. Qed.

Lemma moved_from_set (s u : State.t num) :
  moved_from s u ->
  (forall v, moved_from s (State.set_x v u))
  /\ (forall v, moved_from s (State.set_y v u))
  /\ (forall b, moved_from s (State.set_animateMovement b u)).
Proof.
  destruct s, u. unfold moved_from. cbn. intros H. injection H as -> -> -> -> -> -> -> -> -> -> ->.
  repeat split.
Qed.

Lemma traces_pushState (s : State.t num) (t : session num) :
  moved_from s (_state t) -> traces s t (_pushState t).
Proof.
  intros H. split; [rewrite state_pushState; exact H|].
  exists (pushed t). split; [apply states_pushState_pushed|].
  unfold pushed. destruct (last_of (_states t)) as [e|];
    [destruct (State.differs e (_state t))|]; auto.
Qed.

Lemma traces_trans (s : State.t num) (t u v : session num) :
  traces s t u -> traces s u v -> traces s t v.
Proof.
  intros [_ (l1 & E1 & F1)] [Hv (l2 & E2 & F2)].
  split; [exact Hv|]. exists (l1 ++ l2).
  rewrite E2, E1, app_assoc. split; [reflexivity|].
  apply Forall_app. auto.
Qed.

Lemma traces_setPos (s : State.t num) (x y : num) (t : session num) :
  moved_from s (_state t) -> traces s t (_setPos x y t).
Proof.
  intros H. unfold _setPos.
  apply (@traces_pushState s
           (assign (State.set_y (toFixed4 y))
              (assign (State.set_x (toFixed4 x)) t))).
  cbn [assign _state with_state].
  apply moved_from_set, moved_from_set, H.
Qed.

Lemma traces_tp (s : State.t num) (x y : num) (t : session num) :
  moved_from s (_state t) -> traces s t (tp x y t).
Proof.
  intros H. unfold tp.
  destruct (@traces_setPos s x y (assign (State.set_animateMovement false) t))
    as [Hs Hl].
  { cbn [assign _state with_state]. apply moved_from_set, H. }
  split; [|exact Hl].
  cbn [assign _state with_state]. apply moved_from_set, Hs.
Qed.

Lemma traces_trace_step (s : State.t num) (angle : num) (k : tracer num) :
  moved_from s (_state (self k)) ->
  traces s (self k) (self (trace_step angle k)).
Proof.
  intros H. unfold trace_step.
  destruct (crossing_of _ _ _); unfold xWrap, yWrap, noWrap; cbn [self].
  1-4: (eapply traces_trans;
         [apply traces_setPos; exact H
         |apply traces_tp, traces_setPos; exact H]).
  apply traces_setPos; exact H.
Qed.

Lemma traces_trace_loop (s : State.t num) (fuel : nat) (angle : num)
  (k : tracer num) (t' : session num) :
  moved_from s (_state (self k)) ->
  trace_loop fuel angle k = Some t' -> traces s (self k) t'.
Proof.
  revert k. induction fuel as [|fuel IH]; intros k Hk; simpl;
    destruct (remainingDistance k >? lit 0); try discriminate;
    try (intros E; injection E as <-; split;
         [exact Hk | exists []; rewrite app_nil_r; auto]).
  intros E.
  pose proof (traces_trace_step angle k Hk) as Hs.
  eapply traces_trans; [exact Hs|].
  apply IH; [apply Hs | exact E].
Qed.

(** X4.  A move changes the position only: when [forward], [backward] or
    [goto] returns, the current state and every snapshot appended are the
    state before the move but for [x], [y] and [animateMovement] -
    heading, pen, width, colours, speed, wrap and the other flags are
    untouched. *)
Theorem move_changes_position_only (fuel : nat) (c : command num)
  (t t' : session num) (x y : num) :
  target_of c t = Some (x, y) -> exec fuel c t = Some t' ->
  moved_from (_state t) (_state t')
  /\ exists app, _states t' = _states t ++ app
                 /\ Forall (moved_from (_state t)) app.
Proof.
  intros T E. rewrite (exec_move _ _ _ T) in E.
  exact (traces_trace_loop (s := _state t) _ _ (start x y t)
           (moved_from_refl _) E).
Qed.

(** ** A command issued twice *)

Lemma differs_self_numbers (a b : State.t num) :
  same_numbers a b -> State.differs a a = State.differs b b.
Proof.
  destruct a, b. unfold same_numbers. cbn.
  intros (-> & -> & -> & -> & ->).
  unfold State.differs. cbn. rewrite !eqb_reflx, !String.eqb_refl.
  reflexivity.
Qed.

(** A command made of an assignment [f], [_pushState] and an assignment
    [g] that [f] undoes, issued again right after itself. *)
Lemma push_twice (f g : State.t num -> State.t num) (t : session num) :
  (forall s, f (g (f s)) = f s) ->
  State.differs (f (_state t)) (f (_state t)) = false ->
  let t1 := assign g (_pushState (assign f t)) in
  assign g (_pushState (assign f t1)) = t1.
Proof.
  intros Hf Hd. destruct t as [l s w h r].
  cbn [_state] in Hd.
  unfold assign, _pushState, _stateHasChanged, with_state, with_states, isDifferent.
  cbn [_states _state canvas_width canvas_height rendered].
  destruct (last_of l) as [e|] eqn:E.
  - destruct (State.differs e (f s)) eqn:D;
      cbn [_states _state canvas_width canvas_height rendered];
      rewrite Hf.
    + rewrite last_of_app, Hd. reflexivity.
    + rewrite E, D. reflexivity.
  - cbn [_states _state canvas_width canvas_height rendered].
    rewrite Hf, last_of_app, Hd. reflexivity.
Qed.

Lemma exec_twice (f g : State.t num -> State.t num) (t t1 : session num) :
  (forall s, f (g (f s)) = f s) ->
  (forall s, same_numbers (f s) (g (f s))) ->
  t1 = assign g (_pushState (assign f t)) ->
  State.differs (_state t1) (_state t1) = false ->
  assign g (_pushState (assign f t1)) = t1.
Proof.
  intros Hf Hg -> Hd. apply push_twice; [exact Hf|].
  rewrite (differs_self_numbers (Hg (_state t))).
  cbn [assign _state with_state] in Hd. rewrite state_pushState in Hd.
  exact Hd.
Qed.

(** X5.  A command that sets fields to values of its own, issued again
    right after itself, changes nothing and appends nothing, as long as
    the state it left compares equal to itself (no number in it is
    [NaN]).  This holds for [clear], [speed], [wrap], [hideTurtle],
    [showTurtle], [redrawOnMove], [penup], [pendown], [tp], [setheading],
    [setangle], [width], [color] and [bgcolor]. *)
Theorem absolute_command_twice (fuel : nat) (c : command num)
  (t t1 : session num) :
  absolute c = true -> exec fuel c t = Some t1 ->
  State.differs (_state t1) (_state t1) = false ->
  exec fuel c t1 = Some t1.
Proof.
  intros Hc E Hd.
  assert (I : forall f : State.t num -> State.t num,
             (forall s, f (f s) = f s) ->
             Some (_pushState (assign f t)) = Some t1 ->
             Some (_pushState (assign f t1)) = Some t1).
  { intros f Hf H. injection H as H. f_equal.
    assert (A : forall u : session num, assign (fun s => s) u = u)
      by (intros []; reflexivity).
    rewrite <- (A (_pushState (assign f t1))).
    apply (@exec_twice f (fun s => s) t t1); auto.
    - intros s. repeat split.
    - rewrite A. auto. }
  destruct c; try discriminate; cbn [exec] in *.
  - injection E as E. f_equal. unfold clear.
    apply (@exec_twice (State.set_clear true) (State.set_clear false) t t1);
      auto; intros s; repeat split.
  - apply I; [reflexivity | exact E].
  - apply I; [reflexivity | exact E].
  - apply I; [reflexivity | exact E].
  - apply I; [reflexivity | exact E].
  - apply I; [reflexivity | exact E].
  - apply I; [reflexivity | exact E].
  - apply I; [reflexivity | exact E].
  - injection E as E. f_equal.
    apply (@exec_twice
             (fun s => State.set_y (toFixed4 y)
                         (State.set_x (toFixed4 x)
                            (State.set_animateMovement false s)))
             (State.set_animateMovement true) t t1);
      auto; intros s; repeat split.
  - apply I; [reflexivity | exact E].
  - apply I; [reflexivity | exact E].
  - apply I; [reflexivity | exact E].
  - apply I; [reflexivity | exact E].
  - apply I; [reflexivity | exact E].
Qed.

(** ** Moves that stay on the canvas *)

Lemma moveTo_inside {L : JSNumLaws N} (fuel : nat) (x y : num) (t : session num) :
  crossing_at (bearing x y t) (start x y t) = NoCross ->
  _moveTo (S fuel) x y t
  = Some (if _distanceTo x y t >? lit 0
          then _setPos (fst (end_point x y t)) (snd (end_point x y t)) t
          else t).
Proof.
  intros C. rewrite moveTo_unfold. simpl.
  destruct (_distanceTo x y t >? lit 0); [|reflexivity].
  unfold trace_step.
  change (crossing_of _ _ _)
    with (crossing_at (bearing x y t) (start x y t)).
  rewrite C. unfold noWrap.
  destruct fuel; simpl; rewrite zero_not_gt_zero; reflexivity.
Qed.

(** X6.  With wrap enabled or not, a move whose end point (the current
    position plus the distance along the bearing) is not beyond any of
    the four bounds of the canvas is one [_setPos] at that point: the
    loop of [_moveTo] runs once, through its last arm, and no teleport is
    recorded. *)
Theorem move_inside_canvas {L : JSNumLaws N} (fuel : nat) (c : command num)
  (t : session num) (x y : num) :
  target_of c t = Some (x, y) ->
  (fst (end_point x y t) >? maxX t) = false ->
  (fst (end_point x y t) <? minX t) = false ->
  (snd (end_point x y t) >? maxY t) = false ->
  (snd (end_point x y t) <? minY t) = false ->
  exec (S fuel) c t
  = Some (if _distanceTo x y t >? lit 0
          then _setPos (fst (end_point x y t)) (snd (end_point x y t)) t
          else t).
Proof.
  intros T H1 H2 H3 H4. rewrite (exec_move _ _ _ T).
  apply moveTo_inside.
  unfold crossing_at, crossing_of.
  change (newX_of (bearing x y t) (start x y t)) with (fst (end_point x y t)).
  change (newY_of (bearing x y t) (start x y t)) with (snd (end_point x y t)).
  cbn [self start]. rewrite H1, H2, H3, H4.
  destruct (State.wrap (_state t)); reflexivity.
Qed.

(** ** home *)

(** X7.  [home()] leaves the turtle heading [0] at the rounded origin
    with [instant] off and [animateMovement] on, whatever the state
    before; it appends at most two snapshots, all flagged [instant] (they
    are shown without a step delay) and all heading [0]. *)
Theorem home_is_instant (t : session num) :
  heading (home t) = lit 0
  /\ position (home t) = (toFixed4 (lit 0), toFixed4 (lit 0))
  /\ State.instant (_state (home t)) = false
  /\ State.animateMovement (_state (home t)) = true
  /\ exists app, _states (home t) = _states t ++ app
       /\ (List.length app <= 2)%nat
       /\ Forall (fun e => State.instant e = true /\ State.angle e = lit 0) app.
Proof.
  unfold home, tp, _setPos, setheading, heading, position.
  cbn [assign _state _states with_state].
  rewrite !state_pushState. cbn [assign _state _states with_state].
  rewrite !state_pushState. cbn [assign _state _states with_state].
  repeat split.
  set (t1 := assign (State.set_angle (lit 0)) (assign (State.set_instant true) t)).
  set (t2 := assign _ (assign _ (assign _ (_pushState t1)))).
  exists (pushed t1 ++ pushed t2).
  rewrite (states_pushState_pushed t2). subst t2.
  cbn [assign _state _states with_state].
  rewrite (states_pushState_pushed t1), app_assoc.
  split; [reflexivity|]. split.
  - rewrite length_app. unfold pushed.
    do 2 (match goal with
          | |- context [last_of ?l] => destruct (last_of l) as [?|]
          end;
          [match goal with
           | |- context [State.differs ?a ?b] => destruct (State.differs a b)
           end|]); simpl; lia.
  - apply Forall_app. split; unfold pushed.
    + destruct (last_of _) as [e|]; [destruct (State.differs _ _)|];
        repeat constructor.
    + destruct (last_of _) as [e|]; [destruct (State.differs _ _)|];
        repeat constructor;
        cbn [assign _state with_state]; rewrite state_pushState; reflexivity.
Qed.

End Recording.
End RecordingProps.

(** * Playback: the calls that [done] makes *)

Module PlaybackProps.
Import Turtle Spec TurtleProps Observe.

Section Playback.
Context (num : Type) {N : JSNum num}.
Local Open Scope js_scope.

(** ** The shape of the calls *)

Lemma show_shape (s : State.t num) (last : option (State.t num)) :
  exists shown, fst (show s last) = style_ops s ++ shown
                /\ Forall (show_op s) shown.
Proof.
  unfold show, style_ops. rewrite orb_false_r.
  destruct (isDifferent last (Some s)); cbn [fst].
  - eexists. split; [reflexivity|].
    apply Forall_app. split.
    + destruct (State.redraw s) eqn:R; [|constructor].
      constructor; [|constructor]. left. auto.
    + destruct (State.instant s) eqn:I; cbn [negb andb]; [constructor|].
      destruct (ToNumber (State.speed s) >? lit 0) eqn:G; [|constructor].
      constructor; [|constructor]. right. auto.
  - exists []. rewrite app_nil_r. auto.
Qed.

Lemma frame_shape (s n : State.t num) (a : animation num) :
  exists more, anim_ops (frame s n a) = anim_ops a ++ more
               /\ Forall (frame_op s) more.
Proof.
  unfold frame. cbn [anim_ops]. eexists. split; [reflexivity|].
  constructor; [left; reflexivity|].
  constructor; [right; left; eauto|].
  destruct (State.redraw _) eqn:R; [|constructor].
  constructor; [|constructor].
  right. right. eexists. split; [reflexivity|]. split.
  - destruct s. reflexivity.
  - destruct s. exact R.
Qed.

Lemma animate_shape (fuel : nat) (s n : State.t num) (a a' : animation num) :
  animate fuel s n a = Some a' ->
  exists more, anim_ops a' = anim_ops a ++ more /\ Forall (frame_op s) more.
Proof.
  revert a. induction fuel as [|fuel IH]; intros a; simpl;
    destruct (anim_remaining a >? lit 0); try discriminate;
    try (intros E; injection E as <-; exists []; rewrite app_nil_r; auto).
  intros E. destruct (IH _ E) as (m2 & E2 & F2).
  destruct (frame_shape s n a) as (m1 & E1 & F1).
  exists (m1 ++ m2). rewrite E2, E1, app_assoc. split; [reflexivity|].
  apply Forall_app. auto.
Qed.

Lemma segment_shape (fuel : nat) (s : State.t num) (next : option (State.t num))
  (ops ops' : list (render_op num)) (last last' : option (State.t num)) :
  segment fuel s next ops last = Some (ops', last') ->
  exists frames, ops' = ops ++ frames /\ Forall (frame_op s) frames
    /\ (frames <> [] -> exists n, next = Some n /\ animated s n = true).
Proof.
  unfold segment. destruct next as [n|].
  - fold (animated s n). destruct (animated s n) eqn:A.
    + destruct (animate _ _ _ _) as [a'|] eqn:E; [|discriminate].
      cbn [option_map]. intros H. injection H as <- <-.
      destruct (animate_shape _ _ _ _ E) as (m & Em & Fm).
      exists m. cbn [anim_ops] in Em. eauto.
    + intros H. injection H as <- <-. exists []. rewrite app_nil_r.
      repeat split; auto. intros C. now elim C.
  - intros H. injection H as <- <-. exists []. rewrite app_nil_r.
    repeat split; auto. intros C. now elim C.
Qed.

Lemma play_emitted (fuel : nat) (log : list (State.t num))
  (last : option (State.t num)) (ops : list (render_op num)) :
  play fuel log last = Some ops -> emitted log ops.
Proof.
  revert last ops. induction log as [|s rest IH]; intros last ops; simpl.
  - intros E. injection E as <-. constructor.
  - destruct (show_shape s last) as (shown & Es & Fs).
    destruct (show s last) as [o l]. cbn [fst] in Es. subst o.
    destruct (segment _ _ _ _ _) as [[o' l']|] eqn:G; [|discriminate].
    destruct (segment_shape _ _ _ _ _ G) as (frames & -> & Ff & Hn).
    destruct (play fuel rest l') as [ops2|] eqn:P; [|discriminate].
    cbn [option_map]. intros E. injection E as <-.
    rewrite <- !app_assoc. constructor; eauto.
Qed.

Lemma done_emitted (fuel : nat) (t t' : session num) :
  done fuel t = Some t' ->
  exists ops, rendered t' = rendered t ++ ops /\ emitted (_states t) ops.
Proof.
  unfold done. destruct (play _ _ _) as [ops|] eqn:P; [|discriminate].
  intros E. injection E as <-. exists ops. split; [reflexivity|].
  eapply play_emitted; eassumption.
Qed.

(** ** Styles, ink, redraws and waits *)

Lemma filter_none {A : Type} (p : A -> bool) (l : list A) :
  Forall (fun a => p a = false) l -> filter p l = [].
Proof.
  induction 1 as [|a l H _ IH]; simpl; [reflexivity|]. now rewrite H.
Qed.

Lemma filter_all {A : Type} (p : A -> bool) (l : list A) :
  Forall (fun a => p a = true) l -> filter p l = l.
Proof.
  induction 1 as [|a l H _ IH]; simpl; [reflexivity|]. now rewrite H, IH.
Qed.

Lemma style_ops_style (s : State.t num) :
  Forall (fun op => is_style op = true) (style_ops s).
Proof. unfold style_ops. destruct (State.clear s); repeat constructor. Qed.

Lemma show_op_not_style (s : State.t num) (op : render_op num) :
  show_op s op -> is_style op = false.
Proof. intros [[-> _]|[-> _]]; reflexivity. Qed.

Lemma frame_op_not_style (s : State.t num) (op : render_op num) :
  frame_op s op -> is_style op = false.
Proof.
  intros [->|[(x & y & x' & y' & ->)|(u & -> & _)]]; reflexivity.
Qed.

Lemma emitted_styles (log : list (State.t num)) (ops : list (render_op num)) :
  emitted log ops -> filter is_style ops = flat_map style_ops log.
Proof.
  induction 1 as [|s rest shown frames ops Fs Ff _ _ IH]; [reflexivity|].
  rewrite !filter_app, IH. cbn [flat_map].
  rewrite (filter_all _ (style_ops_style s)).
  rewrite (filter_none is_style (l := shown)),
          (filter_none is_style (l := frames)); [reflexivity| |].
  - eapply Forall_impl; [|exact Ff]. apply frame_op_not_style.
  - eapply Forall_impl; [|exact Fs]. apply show_op_not_style.
Qed.

(** X8.  A playback that returns has made the style calls of every
    snapshot of the log, in the order of the log and with nothing
    skipped: the line width, the stroke colour and the background of each
    snapshot, preceded by a clearing of the image for the snapshots
    flagged [clear].  All other calls are draws, paths and waits. *)
Theorem done_replays_styles (fuel : nat) (t t' : session num) :
  done fuel t = Some t' ->
  exists ops, rendered t' = rendered t ++ ops
              /\ filter is_style ops = flat_map style_ops (_states t).
Proof.
  intros E. destruct (done_emitted _ _ E) as (ops & Er & Em).
  exists ops. split; [exact Er|]. apply emitted_styles, Em.
Qed.

Lemma emitted_forall (P : State.t num -> Prop) (Q : render_op num -> Prop)
  (log : list (State.t num)) (ops : list (render_op num)) :
  (forall s, Forall Q (style_ops s)) ->
  (forall s op, P s -> show_op s op -> Q op) ->
  (forall s op, P s -> frame_op s op -> Q op) ->
  Forall P log -> emitted log ops -> Forall Q ops.
Proof.
  intros Hst Hsh Hfr Hl He. induction He as [|s rest shown frames ops Fs Ff _ _ IH];
    [constructor|].
  inversion Hl as [|? ? Ps Pr]; subst.
  apply Forall_app; split; [apply Hst|].
  apply Forall_app; split;
    [eapply Forall_impl; [|exact Fs]; intros op; apply Hsh, Ps|].
  apply Forall_app; split;
    [eapply Forall_impl; [|exact Ff]; intros op; apply Hfr, Ps|].
  apply IH, Pr.
Qed.

Lemma animated_from_tail (P : State.t num -> Prop) (s : State.t num)
  (rest : list (State.t num)) :
  animated_from P (s :: rest) -> animated_from P rest.
Proof. destruct rest; [intros; exact I|]. intros [_ H]. exact H. Qed.

Lemma emitted_paths (log : list (State.t num)) (ops : list (render_op num)) :
  animated_from (fun s => State.penDown s = false) log ->
  emitted log ops -> Forall (fun op => strokes op = false) ops.
Proof.
  intros Hl He. induction He as [|s rest shown frames ops Fs Ff Hn _ IH];
    [constructor|].
  apply Forall_app; split;
    [unfold style_ops; destruct (State.clear s); repeat constructor|].
  apply Forall_app; split;
    [eapply Forall_impl; [|exact Fs]; intros op [[-> _]|[-> _]]; reflexivity|].
  apply Forall_app; split; [|apply IH; eapply animated_from_tail; exact Hl].
  destruct frames as [|f frames]; [constructor|].
  destruct Hn as (n & Hr & A); [discriminate|].
  destruct rest as [|n' rest]; [discriminate|]. injection Hr as ->.
  destruct Hl as [Hp _]. specialize (Hp A).
  eapply Forall_impl; [|exact Ff].
  intros op [->|[(x & y & x' & y' & ->)|(u & -> & _)]]; try reflexivity.
  exact Hp.
Qed.

(** X9.  Ink is put on the image only while animating from a snapshot
    with the pen down: when every snapshot of the log that is animated
    from has the pen up, the playback strokes no path. *)
Theorem pen_up_strokes_nothing (fuel : nat) (t t' : session num) :
  animated_from (fun s => State.penDown s = false) (_states t) ->
  done fuel t = Some t' ->
  exists ops, rendered t' = rendered t ++ ops
              /\ Forall (fun op => strokes op = false) ops.
Proof.
  intros Hl E. destruct (done_emitted _ _ E) as (ops & Er & Em).
  exists ops. split; [exact Er|]. eapply emitted_paths; eassumption.
Qed.

(** X10.  A log recorded with [redraw] off throughout is played back
    without one redraw of the turtle. *)
Theorem no_redraw_draws_nothing (fuel : nat) (t t' : session num) :
  Forall (fun s => State.redraw s = false) (_states t) ->
  done fuel t = Some t' ->
  exists ops, rendered t' = rendered t ++ ops
              /\ Forall (fun op => is_draw op = false) ops.
Proof.
  intros Hl E. destruct (done_emitted _ _ E) as (ops & Er & Em).
  exists ops. split; [exact Er|].
  apply emitted_forall
    with (P := fun s => State.redraw s = false) (log := _states t); auto.
  - intros s. unfold style_ops. destruct (State.clear s); repeat constructor.
  - intros s op P [[-> R]|[-> _]]; [congruence | reflexivity].
  - intros s op P [->|[(x & y & x' & y' & ->)|(u & -> & _ & R)]];
      try reflexivity. congruence.
Qed.

(** X11.  A log recorded at speed [0] (the level [fastest]) throughout is
    played back without waiting: every [sleep] is for [0] milliseconds. *)
Theorem fastest_never_waits {L : JSNumLaws N} (fuel : nat) (t t' : session num) :
  Forall (fun s => val_seq (State.speed s) (VNum (lit 0)) = true) (_states t) ->
  done fuel t = Some t' ->
  exists ops, rendered t' = rendered t ++ ops
              /\ Forall (fun op => ~ waits op) ops.
Proof.
  intros Hl E. destruct (done_emitted _ _ E) as (ops & Er & Em).
  exists ops. split; [exact Er|].
  apply emitted_forall
    with (P := fun s => val_seq (State.speed s) (VNum (lit 0)) = true) (log := _states t); auto.
  - intros s. unfold style_ops.
    destruct (State.clear s);
      repeat (apply Forall_cons; [intros C; exact C|]); apply Forall_nil.
  - intros s op P [[-> _]|(-> & _ & G)]; [intros C; exact C|].
    destruct (State.speed s) as [|v|f]; try discriminate.
    cbn [val_seq] in P. cbn [ToNumber] in G.
    apply seq_not_gt in P. congruence.
  - intros s op P [->|[(x & y & x' & y' & ->)|(u & -> & _)]].
    + unfold frameDelay. rewrite P. intros C. now elim C.
    + intros C. exact C.
    + intros C. exact C.
Qed.

(** ** Logs without movement *)

Lemma segment_still (fuel : nat) (s : State.t num) (rest : list (State.t num))
  (ops : list (render_op num)) (last : option (State.t num)) :
  still (s :: rest) -> segment fuel s (hd_error rest) ops last = Some (ops, last).
Proof.
  unfold segment. destruct rest as [|n rest]; [reflexivity|].
  cbn [hd_error]. intros [A _]. fold (animated s n). rewrite A. reflexivity.
Qed.

Lemma still_tail (s : State.t num) (rest : list (State.t num)) :
  still (s :: rest) -> still rest.
Proof. destruct rest; [intros; exact I|]. intros [_ H]. exact H. Qed.

Lemma play_still (fuel : nat) (log : list (State.t num))
  (last : option (State.t num)) :
  still log ->
  exists ops, play fuel log last = Some ops
              /\ play 0 log last = Some ops
              /\ Forall (fun op => is_path op = false) ops.
Proof.
  revert last. induction log as [|s rest IH]; intros last H.
  - exists []. repeat split. constructor.
  - cbn [play]. destruct (show_shape s last) as (shown & Es & Fs).
    destruct (show s last) as [o l]. cbn [fst] in Es. subst o.
    rewrite !(fun f => @segment_still f s rest _ l H).
    destruct (IH l (@still_tail s rest H)) as (ops & E1 & E0 & F).
    rewrite E1, E0. cbn [option_map]. eexists. repeat split.
    rewrite <- app_assoc.
    apply Forall_app; split;
      [unfold style_ops; destruct (State.clear s); repeat constructor|].
    apply Forall_app; split; [|exact F].
    eapply Forall_impl; [|exact Fs].
    intros op [[-> _]|[-> _]]; reflexivity.
Qed.

(** X12.  A log in which no snapshot is animated into (each one either
    has [animateMovement] off or is at the position of the one before)
    is played back without entering the animation loop: [done] returns
    whatever the bound on the number of frames, zero included, empties
    the log and draws no path. *)
Theorem still_log_plays_at_once (fuel : nat) (t : session num) :
  still (_states t) ->
  exists ops,
    done fuel t = Some (with_states [] (render ops t))
    /\ done 0 t = Some (with_states [] (render ops t))
    /\ Forall (fun op => is_path op = false) ops.
Proof.
  intros H. destruct (@play_still fuel (_states t) None H) as (ops & E1 & E0 & F).
  exists ops. unfold done. rewrite E1, E0. auto.
Qed.

End Playback.
End PlaybackProps.

(** * Recording and playback on doubles *)

Module FloatMoreProps.
Import Turtle Spec TurtleProps Observe FloatModel Examples MoreExamples FloatProps.
Import RecordingProps PlaybackProps.
#[local] Existing Instance float_num.
Local Open Scope float_scope.
#[local] Set Warnings "-inexact-float".

(** ** The theorems on recording and playback at work on doubles *)

Lemma recording_appends_witness :
  exists app, _states drawn = _states (after [Setheading 90]) ++ app.
Proof.
  apply (@recording_appends float float_num 10 (Forward 30)
           (after [Setheading 90]) drawn);
    vm_compute; reflexivity.
Defined.

Lemma recording_is_silent_witness :
  rendered drawn = rendered (after [Setheading 90])
  /\ canvas_width drawn = canvas_width (after [Setheading 90])
  /\ canvas_height drawn = canvas_height (after [Setheading 90]).
Proof.
  apply (@recording_is_silent float float_num 10 (Forward 30)
           (after [Setheading 90]) drawn);
    vm_compute; reflexivity.
Defined.

Lemma one_shot_flags_reset_witness :
  State.clear (_state (after [Clear; Home; Tp 3 4])) = false
  /\ State.instant (_state (after [Clear; Home; Tp 3 4])) = false
  /\ State.animateMovement (_state (after [Clear; Home; Tp 3 4])) = true.
Proof.
  apply (@one_shot_flags_reset float float_num).
  apply reachable_after with (t := after [Clear; Home; Tp 3 4]).
  vm_compute. reflexivity.
Defined.

Lemma absolute_command_twice_witness :
  exec 10 (Tp 3 4) (after [Tp 3 4]) = Some (after [Tp 3 4]).
Proof.
  apply (@absolute_command_twice float float_num 10 (Tp 3 4) fresh
           (after [Tp 3 4]));
    vm_compute; reflexivity.
Defined.

Lemma move_inside_canvas_witness :
  exec 3 (Goto 3 4) fresh
  = Some (if (_distanceTo 3 4 fresh >? lit 0)%js
          then _setPos (fst (end_point 3 4 fresh)) (snd (end_point 3 4 fresh))
                 fresh
          else fresh).
Proof.
  apply (@move_inside_canvas float float_num float_laws 2 (Goto 3 4) fresh 3 4);
    vm_compute; reflexivity.
Defined.

Lemma move_changes_position_only_witness :
  moved_from (_state fresh) (_state (after [Goto 3 4]))
  /\ exists app, _states (after [Goto 3 4]) = _states fresh ++ app
                 /\ Forall (moved_from (_state fresh)) app.
Proof.
  apply (@move_changes_position_only float float_num 10 (Goto 3 4) fresh
           (after [Goto 3 4]) 3 4);
    vm_compute; reflexivity.
Defined.

Lemma done_replays_styles_witness :
  exists ops, rendered played = rendered drawn ++ ops
              /\ filter is_style ops = flat_map style_ops (_states drawn).
Proof.
  apply (@done_replays_styles float float_num 10 drawn played).
  vm_compute. reflexivity.
Defined.

Lemma pen_up_strokes_nothing_witness :
  exists ops,
    rendered (after [Penup; RedrawOnMove false; Speed (SpeedName "fastest");
                     Forward 30; Done])
    = rendered quiet ++ ops
    /\ Forall (fun op => strokes op = false) ops.
Proof.
  apply (@pen_up_strokes_nothing float float_num 10 quiet).
  - vm_compute. repeat split; intros H; try reflexivity; discriminate H.
  - vm_compute. reflexivity.
Defined.

Lemma no_redraw_draws_nothing_witness :
  exists ops,
    rendered (after [Done; RedrawOnMove false; Forward 30; Done])
    = rendered (after [Done; RedrawOnMove false; Forward 30]) ++ ops
    /\ Forall (fun op => is_draw op = false) ops.
Proof.
  apply (@no_redraw_draws_nothing float float_num 10
           (after [Done; RedrawOnMove false; Forward 30])).
  - vm_compute. repeat constructor.
  - vm_compute. reflexivity.
Defined.

Lemma fastest_never_waits_witness :
  exists ops,
    rendered (after [Done; Speed (SpeedName "fastest"); Forward 30; Done])
    = rendered (after [Done; Speed (SpeedName "fastest"); Forward 30]) ++ ops
    /\ Forall (fun op => ~ waits op) ops.
Proof.
  apply (@fastest_never_waits float float_num float_laws 10
           (after [Done; Speed (SpeedName "fastest"); Forward 30])).
  - vm_compute. repeat constructor.
  - vm_compute. reflexivity.
Defined.

Lemma still_log_plays_at_once_witness :
  exists ops,
    done 10 styled = Some (with_states [] (render ops styled))
    /\ done 0 styled = Some (with_states [] (render ops styled))
    /\ Forall (fun op => is_path op = false) ops.
Proof.
  apply (@still_log_plays_at_once float float_num 10 styled).
  vm_compute. repeat split.
Defined.

(** ** NaN in a state *)

Lemma SFeqb_self (a b : spec_float) : SFeqb a a = false -> SFeqb b a = false.
Proof.
  unfold SFeqb.
  destruct a as [sa|sa| |sa ma ea]; simpl.
  - discriminate.
  - destruct sa; discriminate.
  - intros _. destruct b; reflexivity.
  - rewrite Z.compare_refl, !Pos.compare_cont_spec, Pos.compare_refl.
    destruct sa; discriminate.
Qed.

Lemma eqb_self (a b : float) : (a =? a) = false -> (b =? a) = false.
Proof. rewrite !eqb_spec. apply SFeqb_self. Qed.

Lemma val_seq_self (v w : jsval float) :
  val_seq v v = false -> val_seq w v = false.
Proof.
  destruct v as [|a|f]; simpl.
  - discriminate.
  - intros H. destruct w; try reflexivity. simpl. apply eqb_self; exact H.
  - rewrite String.eqb_refl. discriminate.
Qed.

Lemma differs_self (s e : State.t float) :
  State.differs s s = true -> State.differs e s = true.
Proof.
  unfold State.differs. cbv zeta.
  change (JS.seq ?a ?b) with (a =? b).
  rewrite !eqb_reflx, !String.eqb_refl. cbn [negb].
  rewrite !orb_false_r. intros H.
  repeat (apply orb_true_iff in H; destruct H as [H|H]);
    apply negb_true_iff in H;
    [rewrite (eqb_self _ H) | rewrite (eqb_self _ H) | rewrite (eqb_self _ H)
    | rewrite (eqb_self _ H) | rewrite (@val_seq_self (State.speed s) (State.speed e) H)];
    cbn [negb orb]; rewrite ?orb_true_r; reflexivity.
Qed.

(** X13.  On doubles a state that does not compare equal to itself (one
    of its numbers is [NaN]) is recorded by every [_pushState], whatever
    the last entry of the log: with such a state a repeated command
    appends a snapshot each time. *)
Theorem nan_state_always_recorded (t : session float) :
  State.differs (_state t) (_state t) = true ->
  _states (_pushState t) = _states t ++ [_state t].
Proof.
  intros H. rewrite states_pushState_pushed. unfold pushed.
  destruct (last_of (_states t)) as [e|]; [|reflexivity].
  rewrite (@differs_self (_state t) e H). reflexivity.
Qed.

Lemma nan_state_always_recorded_witness :
  State.differs (_state (after [Width nan])) (_state (after [Width nan])) = true
  /\ _states (_pushState (after [Width nan]))
     = _states (after [Width nan]) ++ [_state (after [Width nan])].
Proof.
  split; [vm_compute; reflexivity|].
  apply (nan_state_always_recorded (after [Width nan])).
  vm_compute. reflexivity.
Defined.

(** ** An animation step of length zero *)

Lemma SFltb_sub_zero (r : spec_float) (b : bool) :
  SFltb (S754_zero false) r = true ->
  SFsub prec emax r (S754_zero b) = r.
Proof.
  destruct r as [s|s| |s m e]; simpl; try discriminate; try reflexivity.
Qed.

Lemma animate_stuck (fuel : nat) (s n : State.t float) (a : animation float) :
  (animationDistance s =? 0) = true ->
  (0 <? anim_remaining a) = true ->
  animate fuel s n a = None.
Proof.
  intros Z. revert a. induction fuel as [|fuel IH]; intros a G; cbn [animate];
    change (JS.lt (lit 0) (anim_remaining a)) with (0 <? anim_remaining a);
    rewrite G; [reflexivity|].
  apply IH. unfold frame. cbn [anim_remaining].
  change (JS.sub ?p ?q) with (p - q).
  rewrite eqb_spec in Z. apply SFeqb_zero in Z. destruct Z as [b Z].
  rewrite ltb_spec, sub_spec, Z in *.
  change (Prim2SF 0) with (S754_zero false) in *.
  rewrite SFltb_sub_zero; exact G.
Qed.

Lemma play_stuck (fuel : nat) (pre post : list (State.t float))
  (s n : State.t float) (last : option (State.t float)) :
  animated s n = true ->
  (animationDistance s =? 0) = true ->
  (0 <? Math_hypot (State.x s - State.x n) (State.y s - State.y n)) = true ->
  play fuel (pre ++ s :: n :: post) last = None.
Proof.
  intros A Z G. revert last. induction pre as [|p pre IH]; intros last.
  - cbn [app play hd_error]. destruct (show s last) as [o l].
    unfold segment. fold (animated s n). rewrite A.
    rewrite animate_stuck; [reflexivity | exact Z | exact G].
  - cbn [app play]. destruct (show p last) as [o l].
    destruct (segment _ _ _ _ _) as [[o' l']|]; [|reflexivity].
    rewrite IH. reflexivity.
Qed.

(** X14.  On doubles a playback never finishes when the log holds a
    snapshot that is animated from with a step of length zero towards a
    successor at a distance greater than zero: the distance left never
    shrinks.  The step is the square of the speed, which is zero for a
    speed such as [2^-600], although the speed itself is not. *)
Theorem zero_step_never_finishes (t : session float)
  (pre post : list (State.t float)) (s n : State.t float) (fuel : nat) :
  _states t = pre ++ s :: n :: post ->
  animated s n = true ->
  (animationDistance s =? 0) = true ->
  (0 <? Math_hypot (State.x s - State.x n) (State.y s - State.y n)) = true ->
  done fuel t = None.
Proof.
  intros E A Z G. unfold done. rewrite E, play_stuck; auto.
Qed.

Lemma zero_step_never_finishes_witness : done 1000 crawling = None.
Proof.
  apply (zero_step_never_finishes crawling
           (firstn 1 (_states crawling)) []
           (nth 1 (_states crawling) default_state)
           (nth 2 (_states crawling) default_state) 1000);
    vm_compute; reflexivity.
Defined.

(** ** random and repeat on doubles *)

(** [random(low, hi)] can exceed [hi]: the sum is rounded before the
    floor is taken, here to the even neighbour. *)
Example random_beyond_hi_on_doubles :
  @Helpers.random float float_num FloatHelpers.float_int
    0.75 0x1p+52 (0x1p+52 + 1)
  = 0x1p+52 + 2.
Proof. vm_compute. reflexivity. Qed.

(** [repeat(3, () => right(90))] turns three times. *)
Example repeat_three_turns :
  option_map (fun t => map place (_states t))
    (@Helpers.repeat float float_num FloatHelpers.float_int 5 3
       (fun t => Some (right 90 t)) fresh)
  = Some [(0, 0, 0, true); (0, 0, 90, true); (0, 0, 180, true);
          (0, 0, 270, true)].
Proof. vm_compute. reflexivity. Qed.

End FloatMoreProps.

